(** * UST_CPP_Training: a shallow embedding of the teaching programs

    The development follows the sources under [Materials/cpp_Notes]:

    - [eval.cpp]: the toy 16-bit CPU simulator [CPUSim16Bit]
      (module [Eval]);
    - [OperatorOverloading.cpp]: the value holder [Test] with its
      overloaded operators (module [OperatorOverloading]);
    - [Inheritance/multilvl.cpp]: [Student], [StdMarks], [StdResult]
      (module [Multilvl]);
    - [solutions/1.cpp]: [Vehicle] and [Car] (module [Solutions1]).

    C++ [int] is a 32-bit two's-complement integer, modelled as a [Z]
    with the wrap-around written out (module [Int]).  [float] and
    [double] are IEEE 754 binary32 and binary64, modelled with the
    specification floats of the Standard Library (module [Float]).
    An access outside an array is undefined behaviour in C++; it is
    modelled as the outcome [Undefined] of the [result] monad. *)

From Stdlib Require Import ZArith Lia Bool Ascii String Recdef FunInd.
From Corelib Require Import SpecFloat.
From stdpp Require Import base option list gmap strings.

Open Scope Z_scope.

(** ** 32-bit [int] arithmetic *)

Module Int.

Definition int_min : Z := -2147483648.
Definition int_max : Z := 2147483647.

Definition in_range (z : Z) : Prop := int_min <= z <= int_max.

(** Reduction of a mathematical integer to its 32-bit two's-complement
    representative. *)
Definition wrap (z : Z) : Z := (z + 2147483648) mod 4294967296 - 2147483648.

Definition add (x y : Z) : Z := wrap (x + y).
Definition mul (x y : Z) : Z := wrap (x * y).
Definition sub (x y : Z) : Z := wrap (x - y).

(** [x << n]: the bits that leave the 32-bit word are dropped. *)
Definition shl (x n : Z) : Z := wrap (Z.shiftl x n).

(** [x >> n] on a signed [int]: arithmetic shift. *)
Definition shr (x n : Z) : Z := Z.shiftr x n.

Definition and (x y : Z) : Z := Z.land x y.
Definition or (x y : Z) : Z := Z.lor x y.

(** [x % y] truncates towards zero. *)
Definition rem (x y : Z) : Z := Z.rem x y.

(** Contextual conversion of an [int] to [bool], and back. *)
Definition to_bool (x : Z) : bool := negb (x =? 0).
Definition of_bool (b : bool) : Z := if b then 1 else 0.

(** [x && y] on two [int] operands, as an [int]. *)
Definition logical_and (x y : Z) : Z := of_bool (to_bool x && to_bool y).

End Int.

(** ** Outcomes: a value, or undefined behaviour *)

Inductive result (A : Type) : Type :=
| Ok (a : A)
| Undefined.
Arguments Ok {A} a.
Arguments Undefined {A}.

Definition bind {A B : Type} (r : result A) (k : A -> result B) : result B :=
  match r with
  | Ok a => k a
  | Undefined => Undefined
  end.

Declare Scope result_scope.
Delimit Scope result_scope with result.
Notation "'let*' x ':=' r 'in' k" := (bind r (fun x => k))
  (at level 10, x name, r at level 100, k at level 200) : result_scope.

(** ** [eval.cpp]: the CPU simulator *)

Module Eval.

Open Scope result_scope.

(** The targets of the [int*] stored in [regmap]. *)
Inductive reg_ptr : Type := ptr_AX | ptr_BX | ptr_CX | ptr_DX.

(** [int memory[65535]]: the number of elements of the array. *)
Definition MEMORY_LEN : Z := 65535.

Record CPUSim16Bit : Type := mkCPU {
  AX : Z;
  BX : Z;
  CX : Z;
  DX : Z;
  memory : list Z;
  regmap : gmap string reg_ptr;
  program : list string
}.

(** The array always has its declared number of elements. *)
Definition wf (s : CPUSim16Bit) : Prop :=
  Z.of_nat (length (memory s)) = MEMORY_LEN.

(** Member initialisers and constructor body. *)
Definition CPUSim16Bit_new : CPUSim16Bit :=
  {| AX := 0; BX := 0; CX := 0; DX := 0;
     memory := replicate (Z.to_nat MEMORY_LEN) 0;
     regmap := <["DX"%string := ptr_DX]> (<["CX"%string := ptr_CX]>
               (<["BX"%string := ptr_BX]> (<["AX"%string := ptr_AX]> ∅)));
     program := [] |}.

Definition set_memory (m : list Z) (s : CPUSim16Bit) : CPUSim16Bit :=
  {| AX := AX s; BX := BX s; CX := CX s; DX := DX s;
     memory := m; regmap := regmap s; program := program s |}.

Definition set_program (p : list string) (s : CPUSim16Bit) : CPUSim16Bit :=
  {| AX := AX s; BX := BX s; CX := CX s; DX := DX s;
     memory := memory s; regmap := regmap s; program := p |}.

(** [a[i]] as an rvalue and [a[i] = v]: defined only inside the array. *)
Definition in_bounds (a : list Z) (i : Z) : bool :=
  (0 <=? i) && (i <? Z.of_nat (length a)).

Definition array_read (a : list Z) (i : Z) : result Z :=
  if in_bounds a i then
    match a !! Z.to_nat i with
    | Some v => Ok v
    | None => Undefined
    end
  else Undefined.

Definition array_write (a : list Z) (i v : Z) : result (list Z) :=
  if in_bounds a i then Ok (<[Z.to_nat i := v]> a) else Undefined.

(** The range check shared by the two accessors. *)
Definition addr_check (addr : Z) : bool := (0 <=? addr) && (addr <=? 65535).

Definition storeWord (addr value : Z) (s : CPUSim16Bit) : result CPUSim16Bit :=
  if addr_check addr then
    let* m1 := array_write (memory s) addr (Int.logical_and value 255) in
    let* m2 := array_write m1 (Int.add addr 1)
                           (Int.and (Int.shr value 8) 255) in
    Ok (set_memory m2 s)
  else Ok s.

Definition loadWord (addr : Z) (s : CPUSim16Bit) : result Z :=
  if addr_check addr then
    let* hi := array_read (memory s) (Int.add addr 1) in
    let* lo := array_read (memory s) addr in
    Ok (Int.or (Int.shl hi 8) lo)
  else Ok 0.

Definition loadProgram (prog : list string) (s : CPUSim16Bit) : CPUSim16Bit :=
  set_program prog s.

(** Both bodies hold a comment only. *)
Definition run (s : CPUSim16Bit) : CPUSim16Bit := s.
Definition execute (s : CPUSim16Bit) : CPUSim16Bit := s.

Definition isRegister (name : string) (s : CPUSim16Bit) : bool :=
  bool_decide (is_Some (regmap s !! name)).

(** [while (val < 0) val += 65535;]  The loop ends because a negative
    [int] grows by 65535 at every turn.  [turns_left] bounds the turns
    that remain and is the measure the recursion is defined by (its
    second case covers the integers that are no [int] values, which one
    addition brings back into the range). *)
Definition turns_left (val : Z) : nat :=
  if Int.int_min <=? val then Z.to_nat ((65534 - val) / 65535)
  else Z.to_nat 32770.

Function wrap16_loop (val : Z) {measure turns_left val} : Z :=
  if val <? 0 then wrap16_loop (Int.add val 65535) else val.
Proof.
  intros val Hneg. apply Z.ltb_lt in Hneg.
  unfold turns_left, Int.add, Int.wrap, Int.int_min.
  repeat case_match; Z.div_mod_to_equations; lia.
Defined.

(** [return val % 65536;] *)
Definition wrap16 (val : Z) : Z := Int.rem (wrap16_loop val) 65536.

End Eval.

(** ** [OperatorOverloading.cpp]: the value holder [Test] *)

Module OperatorOverloading.

Record Test : Type := mkTest { value : Z }.

(** The converting constructor [Test(int i) { value = i; }]. *)
Definition Test_int (i : Z) : Test := {| value := i |}.

(** Operators take their operands by reference ([this] and [Test &obj]),
    and two references may name the same object.  Objects live in a
    store indexed by their address; a result of [None] stands for a
    reference to no object. *)
Abbreviation store := (gmap positive Test).

Definition set_value (p : positive) (v : Z) (h : store) : store :=
  <[p := {| value := v |}]> h.

(** [value = value + obj.value; return value;]  The returned temporary
    is built by [Test(int)] from the member just assigned. *)
Definition operator_plus (this obj : positive) (h : store)
  : option (Test * store) :=
  t ← h !! this;
  o ← h !! obj;
  let h' := set_value this (Int.add (value t) (value o)) h in
  t' ← h' !! this;
  Some (Test_int (value t'), h').

(** [this->value = this->value + obj.value; return *this;]  The result
    is returned by value: a copy of [*this]. *)
Definition operator_plus_assign (this obj : positive) (h : store)
  : option (Test * store) :=
  t ← h !! this;
  o ← h !! obj;
  let h' := set_value this (Int.add (value t) (value o)) h in
  t' ← h' !! this;
  Some (t', h').

(** [friend void operator ++(Test &obj1) { obj1.value++; }] *)
Definition operator_incr (obj1 : positive) (h : store) : option store :=
  t ← h !! obj1;
  Some (set_value obj1 (Int.add (value t) 1) h).

(** The objects of [main]: [Test T1(10), T2(20);], with [T1] at address
    1 and [T2] at address 2. *)
Definition main_store : store :=
  <[2%positive := Test_int 20]> (<[1%positive := Test_int 10]> ∅).

End OperatorOverloading.

(** ** [float] and [double] *)

Module Float.

(** Precision and exponent bound of binary32 and binary64. *)
Definition prec32 : Z := 24.
Definition emax32 : Z := 128.
Definition prec64 : Z := 53.
Definition emax64 : Z := 1024.

(** Conversions from [int]: exact to [double], rounded to nearest-even
    to [float]. *)
Definition double_of_int (z : Z) : spec_float :=
  binary_normalize prec64 emax64 z 0 false.
Definition float_of_int (z : Z) : spec_float :=
  binary_normalize prec32 emax32 z 0 false.

(** Conversion of a floating-point value to the format [prec], [emax]. *)
Definition convert (prec emax : Z) (x : spec_float) : spec_float :=
  match x with
  | S754_finite s m e => binary_round prec emax s m e
  | _ => x
  end.

Definition float_of_double : spec_float -> spec_float := convert prec32 emax32.
Definition double_of_float : spec_float -> spec_float := convert prec64 emax64.

Definition double_div : spec_float -> spec_float -> spec_float :=
  SFdiv prec64 emax64.
Definition double_mul : spec_float -> spec_float -> spec_float :=
  SFmul prec64 emax64.

(** The literals [6.0] and [0.9] (the latter is 0x3FECCCCCCCCCCCCD). *)
Definition lit_6_0 : spec_float := S754_finite false 6755399441055744 (-50).
Definition lit_0_9 : spec_float := S754_finite false 8106479329266893 (-53).

(** The literals [3.0] and [100.0]. *)
Definition lit_3_0 : spec_float := S754_finite false 6755399441055744 (-51).
Definition lit_100_0 : spec_float := S754_finite false 7036874417766400 (-46).

(** A finite [float] is an integer multiple of [2^-149]; [scaled x] is
    that integer, the exact value of [x] in units of [2^-149]. *)
Definition scaled (x : spec_float) : option Z :=
  match x with
  | S754_zero _ => Some 0
  | S754_finite s m e =>
      if -149 <=? e then Some (cond_Zopp s (Z.pos m) * 2 ^ (e + 149)) else None
  | _ => None
  end.

End Float.

(** ** [cout]: the sequence of values inserted into the stream *)

Module Console.

Inductive item : Type :=
| text (s : string)
| int_value (z : Z)
| float_value (f : spec_float)
| endl.

Definition newline : string := String "010"%char EmptyString.

End Console.

(** ** [Inheritance/multilvl.cpp] *)

Module Multilvl.

(** [StdResult] with the members it inherits from [Student] and
    [StdMarks]. *)
Record StdResult : Type := mkStdResult {
  rollno : Z;
  name : string;
  s1 : Z; s2 : Z; s3 : Z; s4 : Z; s5 : Z; s6 : Z;
  per : spec_float
}.

Definition set_per (p : spec_float) (r : StdResult) : StdResult :=
  {| rollno := rollno r; name := name r;
     s1 := s1 r; s2 := s2 r; s3 := s3 r; s4 := s4 r; s5 := s5 r; s6 := s6 r;
     per := p |}.

(** [s1+s2+s3+s4+s5+s6], an [int] expression. *)
Definition total (r : StdResult) : Z :=
  Int.add (Int.add (Int.add (Int.add (Int.add (s1 r) (s2 r)) (s3 r)) (s4 r))
                   (s5 r)) (s6 r).

(** [per = (s1+s2+s3+s4+s5+s6)/6.0;] The quotient is a [double]; the
    assignment converts it to [float].  The result is the object after
    the call and what was sent to [cout]. *)
Definition calc (r : StdResult) : StdResult * list Console.item :=
  let r' := set_per (Float.float_of_double
                       (Float.double_div (Float.double_of_int (total r))
                                         Float.lit_6_0)) r in
  (r', [Console.text (Console.newline +:+ Console.newline
                        +:+ " Total Percentage : ");
        Console.float_value (per r')]).

(** An object whose marks have been entered and whose [per] has not
    been computed yet. *)
Definition sample_result : StdResult :=
  mkStdResult 1 "A" 60 70 80 90 100 50 S754_nan.


End Multilvl.

(** ** [solutions/1.cpp], problem 3: vehicle rental *)

Module Solutions1.

Record Vehicle : Type := mkVehicle {
  vehicleId : string;
  type : string;
  ratePerKm : Z
}.

(** [Car] adds no member to [Vehicle]. *)
Record Car : Type := mkCar { vehicle : Vehicle }.

(** [void calculateFare(int distance)] *)
Definition calculateFare_1 (distance : Z) (c : Car) : list Console.item :=
  [Console.text "Fare without discount: ₹";
   Console.int_value (Int.mul distance (ratePerKm (vehicle c)));
   Console.endl].

(** [void calculateFare(int distance, int days)]:
    [float fare = distance * ratePerKm; if (days > 2) fare *= 0.9;]
    The product is an [int] converted to [float]; [fare *= 0.9]
    multiplies in [double] and converts back. *)
Definition calculateFare_2 (distance days : Z) (c : Car) : list Console.item :=
  let fare := Float.float_of_int (Int.mul distance (ratePerKm (vehicle c))) in
  let fare := if days >? 2
              then Float.float_of_double
                     (Float.double_mul (Float.double_of_float fare) Float.lit_0_9)
              else fare in
  [Console.text "Fare with long-term discount: ₹";
   Console.float_value fare;
   Console.endl].

(** The object of [main]: [Car c1("C100", "Car", 15);] *)
Definition c1 : Car := mkCar (mkVehicle "C100" "Car" 15).


(** *** Problem 1: academic result management *)

Module Problem1.

(** [Marks] with the members it inherits from [Student]. *)
Record Marks : Type := mkMarks {
  rollNo : Z;
  name : string;
  age : Z;
  m1 : Z; m2 : Z; m3 : Z;
  total : Z;
  avg : spec_float
}.

(** [total = m1 + m2 + m3; avg = total / 3.0;]  The quotient is taken
    of the member just assigned. *)
Definition calculate (m : Marks) : Marks :=
  let t := Int.add (Int.add (m1 m) (m2 m)) (m3 m) in
  {| rollNo := rollNo m; name := name m; age := age m;
     m1 := m1 m; m2 := m2 m; m3 := m3 m;
     total := t;
     avg := Float.float_of_double
              (Float.double_div (Float.double_of_int t) Float.lit_3_0) |}.

(** The constructor initialises the inherited members and the three
    marks and calls [calculate()]; [total] and [avg] have no value
    before the call ([t0] and [a0] stand for what they hold). *)
Definition Marks_new (t0 : Z) (a0 : spec_float)
    (r : Z) (n : string) (a a1 a2 a3 : Z) : Marks :=
  calculate {| rollNo := r; name := n; age := a;
               m1 := a1; m2 := a2; m3 := a3; total := t0; avg := a0 |}.

(** [Student::display()] *)
Definition Student_display (m : Marks) : list Console.item :=
  [Console.text ("Student Info:" +:+ Console.newline);
   Console.text "Roll No: "; Console.int_value (rollNo m);
   Console.text (Console.newline +:+ "Name: "); Console.text (name m);
   Console.text (Console.newline +:+ "Age: "); Console.int_value (age m);
   Console.endl].

(** [Marks::display(bool full)] *)
Definition display (full : bool) (m : Marks) : list Console.item :=
  if negb full then Student_display m
  else [Console.text (Console.newline +:+ "Full Result:" +:+ Console.newline);
        Console.text "Total Marks: "; Console.int_value (total m);
        Console.text (Console.newline +:+ "Average Marks: ");
        Console.float_value (avg m);
        Console.endl].

End Problem1.

(** *** Problem 2: employee salary calculation *)

Module Problem2.

(** [TechLead] with the members of [Employee], [Developer] and
    [Manager]; the virtual base [Employee] is there once. *)
Record TechLead : Type := mkTechLead {
  empId : Z;
  name : string;
  codingHours : Z;
  teamSize : Z
}.

(** [void calculateSalary()] *)
Definition calculateSalary_0 (t : TechLead) : list Console.item :=
  [Console.text (Console.newline +:+ "Tech Lead Info:" +:+ Console.newline
                   +:+ "EmpId: ");
   Console.int_value (empId t);
   Console.text (Console.newline +:+ "Name: "); Console.text (name t);
   Console.endl;
   Console.text (Console.newline +:+ "Salary based on coding: ₹");
   Console.int_value (Int.mul (codingHours t) 500);
   Console.endl].

(** [void calculateSalary(bool includeTeam)] *)
Definition calculateSalary_1 (includeTeam : bool) (t : TechLead)
  : list Console.item :=
  if includeTeam
  then [Console.text "Salary based on coding + team: ₹";
        Console.int_value
          (Int.add (Int.mul (codingHours t) 500) (Int.mul (teamSize t) 5000));
        Console.endl]
  else [].

End Problem2.

(** *** Problem 5: university placement analysis *)

Module Problem5.

(** [Placement] with the members it inherits from [Department]. *)
Record Placement : Type := mkPlacement {
  deptName : string;
  numberOfStudents : Z;
  placed : Z
}.

(** [float percent = (placed * 100.0) / numberOfStudents;]  Product and
    quotient are taken in [double]; the initialisation converts to
    [float]. *)
Definition percent (p : Placement) : spec_float :=
  Float.float_of_double
    (Float.double_div
       (Float.double_mul (Float.double_of_int (placed p)) Float.lit_100_0)
       (Float.double_of_int (numberOfStudents p))).

(** [void placementStats()] *)
Definition placementStats_0 (p : Placement) : list Console.item :=
  [Console.text (Console.newline +:+ "Department: ");
   Console.text (deptName p);
   Console.text (Console.newline +:+ "Placement Percentage: ");
   Console.float_value (percent p);
   Console.text "%";
   Console.endl].

(** [void placementStats(bool gap)] *)
Definition placementStats_1 (gap : bool) (p : Placement) : list Console.item :=
  if gap
  then [Console.text "Placement Gap: ";
        Console.int_value (Int.sub (numberOfStudents p) (placed p));
        Console.text " students";
        Console.endl]
  else [].

End Problem5.

End Solutions1.

(** ** Notions used in the statements *)

(** The value of [val] after [n] turns of the loop body of [wrap16]. *)
Definition after_turns (n : nat) (val : Z) : Z :=
  Nat.iter n (fun v => Int.add v 65535) val.

Module Accuracy.

(** [exactly x n]: the [float] [x] is the integer [n]. *)
Definition exactly (x : spec_float) (n : Z) : bool :=
  match Float.scaled x with
  | Some p => p =? n * 2 ^ 149
  | None => false
  end.

(** [close_to x num den], for [den > 0]: the [float] [x] is within the
    relative distance [2^-24] (half a unit in the last place of a
    [float]) of the rational number [num / den]. *)
Definition close_to (x : spec_float) (num den : Z) : bool :=
  match Float.scaled x with
  | Some p => Z.abs (den * p - num * 2 ^ 149) * 2 ^ 24 <=? Z.abs num * 2 ^ 149
  | None => false
  end.

(** [f] holds of the [count] integers from [start] on. *)
Fixpoint all_from (f : Z -> bool) (start : Z) (count : nat) : bool :=
  match count with
  | O => true
  | S count' => f start && all_from f (start + 1) count'
  end.

(** The [per] that [calc] stores for a given total of the marks. *)
Definition per_of_total (t : Z) : spec_float :=
  Float.float_of_double (Float.double_div (Float.double_of_int t) Float.lit_6_0).


(** The fare that [calculateFare] prints for a given product
    [distance * ratePerKm], without and with the discount. *)
Definition plain_fare (p : Z) : spec_float := Float.float_of_int p.
Definition discounted_fare (p : Z) : spec_float :=
  Float.float_of_double
    (Float.double_mul (Float.double_of_float (plain_fare p)) Float.lit_0_9).


End Accuracy.

(** ** Notions used in the further properties *)

(** Every cell of the memory array holds a byte. *)
Definition bytes_only (s : Eval.CPUSim16Bit) : Prop :=
  Forall (fun c => 0 <= c <= 255) (Eval.memory s).

(** The states a simulator can be in: the constructed object, and what
    the member functions make of a state when they return. *)
Inductive reachable : Eval.CPUSim16Bit -> Prop :=
| reach_new : reachable Eval.CPUSim16Bit_new
| reach_storeWord (s s' : Eval.CPUSim16Bit) (addr value : Z) :
    reachable s -> Eval.storeWord addr value s = Ok s' -> reachable s'
| reach_loadProgram (s : Eval.CPUSim16Bit) (prog : list string) :
    reachable s -> reachable (Eval.loadProgram prog s)
| reach_run (s : Eval.CPUSim16Bit) : reachable s -> reachable (Eval.run s)
| reach_execute (s : Eval.CPUSim16Bit) :
    reachable s -> reachable (Eval.execute s).

(** [++obj1] evaluated [n] times in a row. *)
Fixpoint incr_times (n : nat) (obj1 : positive)
    (h : gmap positive OperatorOverloading.Test)
  : option (gmap positive OperatorOverloading.Test) :=
  match n with
  | O => Some h
  | S n' => h' ← OperatorOverloading.operator_incr obj1 h; incr_times n' obj1 h'
  end.

(** Comparison of two finite [float] values by their exact values. *)
Module Order.

Definition lt (x y : spec_float) : bool :=
  match Float.scaled x, Float.scaled y with
  | Some p, Some q => p <? q
  | _, _ => false
  end.

Definition le (x y : spec_float) : bool :=
  match Float.scaled x, Float.scaled y with
  | Some p, Some q => p <=? q
  | _, _ => false
  end.

End Order.

(** The checks that are run over a range of inputs. *)
Module Checks.

(** The percentage of [calc] grows with the total of the marks. *)
Definition per_step_ok (t : Z) : bool :=
  Order.lt (Accuracy.per_of_total t) (Accuracy.per_of_total (t + 1)).

(** The [avg] that [Marks::calculate] stores for a given total. *)
Definition avg_of_total (t : Z) : spec_float :=
  Float.float_of_double (Float.double_div (Float.double_of_int t) Float.lit_3_0).

Definition mean_ok (t : Z) : bool :=
  Accuracy.close_to (avg_of_total t) t 3
  && (if t mod 3 =? 0 then Accuracy.exactly (avg_of_total t) (t / 3) else true)
  && Order.le (Float.float_of_int 0) (avg_of_total t)
  && Order.le (avg_of_total t) (Float.float_of_int 100).

(** The discounted fare lies between zero and the plain fare. *)
Definition fare_order_ok (p : Z) : bool :=
  if 0 <? p
  then Order.lt (Float.float_of_int 0) (Accuracy.discounted_fare p)
       && Order.lt (Accuracy.discounted_fare p) (Accuracy.plain_fare p)
  else if p <? 0
  then Order.lt (Accuracy.plain_fare p) (Accuracy.discounted_fare p)
       && Order.lt (Accuracy.discounted_fare p) (Float.float_of_int 0)
  else Accuracy.exactly (Accuracy.plain_fare p) 0
       && Accuracy.exactly (Accuracy.discounted_fare p) 0.

(** The placement percentage of [k] students placed out of [n]. *)
Definition placement_ok (n k : Z) : bool :=
  let x := Solutions1.Problem5.percent
             (Solutions1.Problem5.mkPlacement "" n k) in
  Accuracy.close_to x (100 * k) n
  && Order.le (Float.float_of_int 0) x
  && (if k =? n then Accuracy.exactly x 100
      else Order.lt x (Float.float_of_int 100)).

Definition placement_row_ok (n : Z) : bool :=
  Accuracy.all_from (placement_ok n) 0 (Z.to_nat (n + 1)).

End Checks.

(** * Properties *)

(** ** [int] arithmetic *)

(** Side conditions of the form [Int.in_range z]. *)
Ltac int_range :=
  unfold Int.in_range, Int.int_min, Int.int_max in *; lia.

Lemma wrap_in_range (z : Z) : Int.in_range z -> Int.wrap z = z.
Proof.
  unfold Int.in_range, Int.wrap, Int.int_min, Int.int_max. intros H.
  rewrite Z.mod_small; lia.
Qed.

Lemma add_exact (x y : Z) : Int.in_range (x + y) -> Int.add x y = x + y.
Proof. apply wrap_in_range. Qed.

Lemma logical_and_255 (value : Z) :
  Int.logical_and value 255 = if value =? 0 then 0 else 1.
Proof.
  unfold Int.logical_and, Int.to_bool, Int.of_bool.
  destruct (value =? 0); reflexivity.
Qed.

(** A byte shifted left by eight bits and or-ed with a byte is the
    two-digit number in base 256. *)
Lemma or_shl_bytes (hi lo : Z) :
  0 <= lo < 256 -> 0 <= hi < 256 ->
  Int.or (Int.shl hi 8) lo = hi * 256 + lo.
Proof.
  intros Hlo Hhi. unfold Int.or, Int.shl.
  rewrite Z.shiftl_mul_pow2 by lia.
  change (2 ^ 8) with 256.
  rewrite wrap_in_range by int_range.
  assert (Hland : Z.land (hi * 256) lo = 0);
    [| rewrite Z.add_nocarry_lxor, Z.lxor_lor by exact Hland; reflexivity].
  apply Z.bits_inj'; intros n Hn; rewrite Z.land_spec, Z.bits_0.
  destruct (Z.lt_ge_cases n 8) as [Hlt | Hge].
  - replace (hi * 256) with (hi * 2 ^ 8) by reflexivity.
    rewrite Z.mul_pow2_bits_low by lia. reflexivity.
  - replace (Z.testbit lo n) with false; [apply andb_false_r |].
    symmetry. destruct (Z.eq_dec lo 0) as [-> | Hne]; [apply Z.bits_0 |].
    apply Z.bits_above_log2; [lia |].
    apply Z.log2_lt_pow2; [lia |].
    apply Z.lt_le_trans with (2 ^ 8); [simpl; lia |].
    apply Z.pow_le_mono_r; lia.
Qed.

(** ** [eval.cpp]: the memory accessors *)

Section Accessors.

Import Eval.

Variable s : CPUSim16Bit.
Hypothesis Hwf : wf s.

Lemma in_bounds_memory (i : Z) :
  in_bounds (memory s) i = true <-> 0 <= i < MEMORY_LEN.
Proof.
  unfold in_bounds. rewrite Hwf, andb_true_iff, Z.leb_le, Z.ltb_lt. tauto.
Qed.

Lemma in_bounds_memory_false (i : Z) :
  in_bounds (memory s) i = false <-> i < 0 \/ MEMORY_LEN <= i.
Proof.
  rewrite <- not_true_iff_false, in_bounds_memory. lia.
Qed.

Lemma array_read_memory (i : Z) :
  0 <= i < MEMORY_LEN ->
  exists v, memory s !! Z.to_nat i = Some v /\ array_read (memory s) i = Ok v.
Proof.
  intros Hi. unfold array_read.
  rewrite (proj2 (in_bounds_memory i) Hi).
  destruct (lookup_lt_is_Some_2 (memory s) (Z.to_nat i)) as [v Hv].
  { unfold wf in Hwf. lia. }
  exists v. rewrite Hv. auto.
Qed.

Lemma array_read_outside (i : Z) :
  MEMORY_LEN <= i -> array_read (memory s) i = Undefined.
Proof.
  intros Hi. unfold array_read.
  rewrite (proj2 (in_bounds_memory_false i)); [reflexivity | lia].
Qed.

Lemma array_write_memory (i v : Z) :
  0 <= i < MEMORY_LEN ->
  array_write (memory s) i v = Ok (<[Z.to_nat i := v]> (memory s)).
Proof.
  intros Hi. unfold array_write.
  rewrite (proj2 (in_bounds_memory i) Hi). reflexivity.
Qed.

Lemma array_write_outside (i v : Z) :
  MEMORY_LEN <= i -> array_write (memory s) i v = Undefined.
Proof.
  intros Hi. unfold array_write.
  rewrite (proj2 (in_bounds_memory_false i)); [reflexivity | lia].
Qed.

Lemma addr_check_true (addr : Z) : addr_check addr = true <-> 0 <= addr <= 65535.
Proof. unfold addr_check. rewrite andb_true_iff, Z.leb_le, Z.leb_le. tauto. Qed.

Lemma addr_check_false (addr : Z) :
  addr_check addr = false <-> addr < 0 \/ addr > 65535.
Proof. rewrite <- not_true_iff_false, addr_check_true. lia. Qed.

Lemma next_addr (addr : Z) : 0 <= addr <= 65535 -> Int.add addr 1 = addr + 1.
Proof.
  intros H. apply add_exact. int_range.
Qed.

End Accessors.

Lemma wf_new : Eval.wf Eval.CPUSim16Bit_new.
Proof.
  unfold Eval.wf, Eval.CPUSim16Bit_new. cbn [Eval.memory].
  rewrite length_replicate. apply Z2Nat.id. discriminate.
Qed.

Lemma wf_set_memory (m : list Z) (s : Eval.CPUSim16Bit) :
  length m = length (Eval.memory s) -> Eval.wf s -> Eval.wf (Eval.set_memory m s).
Proof. unfold Eval.wf. simpl. intros ->. auto. Qed.

(** What [storeWord] does for the addresses whose two cells exist. *)
Lemma storeWord_inside (s : Eval.CPUSim16Bit) (addr value : Z) :
  Eval.wf s -> 0 <= addr <= 65533 ->
  Eval.storeWord addr value s =
  Ok (Eval.set_memory
        (<[Z.to_nat (addr + 1) := Z.land (Z.shiftr value 8) 255]>
           (<[Z.to_nat addr := if value =? 0 then 0 else 1]> (Eval.memory s)))
        s).
Proof.
  intros Hwf Haddr. unfold Eval.storeWord.
  rewrite (proj2 (addr_check_true addr)) by lia.
  rewrite next_addr by lia.
  rewrite array_write_memory by (unfold Eval.MEMORY_LEN; auto; lia).
  rewrite logical_and_255. simpl.
  unfold Eval.array_write, Eval.in_bounds.
  rewrite length_insert, Hwf.
  replace (0 <=? addr + 1) with true by (symmetry; apply Z.leb_le; lia).
  replace (addr + 1 <? Eval.MEMORY_LEN) with true
    by (symmetry; apply Z.ltb_lt; unfold Eval.MEMORY_LEN; lia).
  reflexivity.
Qed.

(** The two addresses that pass the range check and reach the end of
    the array: the access to [memory[addr+1]] (and, at 65535, to
    [memory[addr]]) is undefined. *)
Lemma storeWord_outside (s : Eval.CPUSim16Bit) (addr value : Z) :
  Eval.wf s -> 65534 <= addr <= 65535 ->
  Eval.storeWord addr value s = Undefined.
Proof.
  intros Hwf Haddr. unfold Eval.storeWord.
  rewrite (proj2 (addr_check_true addr)) by lia.
  rewrite next_addr by lia.
  destruct (Z.eq_dec addr 65534) as [-> | Hne].
  - rewrite array_write_memory by (unfold Eval.MEMORY_LEN; auto; lia).
    simpl. unfold Eval.array_write, Eval.in_bounds.
    rewrite length_insert, Hwf. reflexivity.
  - rewrite array_write_outside by (unfold Eval.MEMORY_LEN; auto; lia).
    reflexivity.
Qed.

Lemma loadWord_inside (s : Eval.CPUSim16Bit) (addr : Z) :
  Eval.wf s -> 0 <= addr <= 65533 ->
  exists lo hi,
    Eval.memory s !! Z.to_nat addr = Some lo /\
    Eval.memory s !! Z.to_nat (addr + 1) = Some hi /\
    Eval.loadWord addr s = Ok (Int.or (Int.shl hi 8) lo).
Proof.
  intros Hwf Haddr. unfold Eval.loadWord.
  rewrite (proj2 (addr_check_true addr)) by lia.
  rewrite next_addr by lia.
  destruct (array_read_memory s Hwf addr) as (lo & Hlo & Rlo);
    [unfold Eval.MEMORY_LEN; lia |].
  destruct (array_read_memory s Hwf (addr + 1)) as (hi & Hhi & Rhi);
    [unfold Eval.MEMORY_LEN; lia |].
  exists lo, hi. rewrite Rhi, Rlo. auto.
Qed.

Lemma loadWord_outside (s : Eval.CPUSim16Bit) (addr : Z) :
  Eval.wf s -> 65534 <= addr <= 65535 -> Eval.loadWord addr s = Undefined.
Proof.
  intros Hwf Haddr. unfold Eval.loadWord.
  rewrite (proj2 (addr_check_true addr)) by lia.
  rewrite next_addr by lia.
  rewrite array_read_outside by (unfold Eval.MEMORY_LEN; auto; lia).
  reflexivity.
Qed.

(** [storeWord] keeps the array at its size and touches nothing but the
    array; inside the array it touches the two cells only. *)
Lemma storeWord_preserves_wf (s s' : Eval.CPUSim16Bit) (addr value : Z) :
  Eval.wf s -> Eval.storeWord addr value s = Ok s' -> Eval.wf s'.
Proof.
  intros Hwf. unfold Eval.storeWord, Eval.array_write.
  repeat (case_match; simpl); intros [= <-]; try assumption.
  apply wf_set_memory; [| assumption].
  rewrite !length_insert. reflexivity.
Qed.

Lemma storeWord_frame (s s' : Eval.CPUSim16Bit) (addr value : Z) :
  Eval.storeWord addr value s = Ok s' ->
  Eval.AX s' = Eval.AX s /\ Eval.BX s' = Eval.BX s /\
  Eval.CX s' = Eval.CX s /\ Eval.DX s' = Eval.DX s /\
  Eval.regmap s' = Eval.regmap s /\ Eval.program s' = Eval.program s.
Proof.
  unfold Eval.storeWord, Eval.array_write.
  repeat (case_match; simpl); intros [= <-]; repeat split.
Qed.

Lemma storeWord_other_cells (s : Eval.CPUSim16Bit) (addr value i : Z) :
  Eval.wf s -> 0 <= addr <= 65533 -> 0 <= i -> i <> addr -> i <> addr + 1 ->
  exists s', Eval.storeWord addr value s = Ok s' /\
             Eval.memory s' !! Z.to_nat i = Eval.memory s !! Z.to_nat i.
Proof.
  intros Hwf Haddr Hi Hne Hne'. eexists.
  split; [apply storeWord_inside; assumption |].
  cbn [Eval.memory Eval.set_memory].
  rewrite !list_lookup_insert_ne by lia. reflexivity.
Qed.

(** Inside the array [storeWord] leaves in [memory[addr]] the value of
    the logical [value && 0xFF], which is 1 for a non-zero [value] and 0
    for zero (not the low byte of [value]), and leaves
    [(value >> 8) & 0xFF] in [memory[addr+1]]. *)
Lemma storeWord_inside_cells (s : Eval.CPUSim16Bit) (addr value : Z) :
  Eval.wf s -> 0 <= addr <= 65533 ->
  exists s',
    Eval.storeWord addr value s = Ok s' /\
    Eval.memory s' !! Z.to_nat addr = Some (Int.logical_and value 255) /\
    Int.logical_and value 255 = (if value =? 0 then 0 else 1) /\
    Eval.memory s' !! Z.to_nat (addr + 1)
      = Some (Int.and (Int.shr value 8) 255).
Proof.
  intros Hwf Haddr. eexists. split; [apply storeWord_inside; assumption |].
  cbn [Eval.memory Eval.set_memory].
  assert (Hlen : (Z.to_nat (addr + 1) < length (Eval.memory s))%nat)
    by (unfold Eval.wf, Eval.MEMORY_LEN in Hwf; lia).
  repeat split.
  - rewrite list_lookup_insert_ne by lia.
    rewrite list_lookup_insert_eq by lia.
    rewrite logical_and_255. reflexivity.
  - apply logical_and_255.
  - rewrite list_lookup_insert_eq by (rewrite length_insert; lia).
    reflexivity.
Qed.

(** 0x1234 has the low byte 0x34, and [0x1234 && 0xFF] is 1. *)
Example low_byte_is_lost :
  Int.and 4660 255 = 52 /\ Int.logical_and 4660 255 = 1.
Proof. split; reflexivity. Qed.

(** C1 (the code on the addresses of the claim).  For an address with
    [0 <= addr <= 65535], [storeWord addr value] sets [memory[addr]] to
    the logical [value && 0xFF] (1 for a non-zero [value], 0 for zero)
    and [memory[addr+1]] to [(value >> 8) & 0xFF] as long as
    [addr <= 65533]; at 65534 and 65535 a cell to be set lies outside
    the 65535-cell array and the call has no defined outcome. *)
Theorem storeWord_checked_address
  (s : Eval.CPUSim16Bit) (addr value : Z) :
  Eval.wf s -> 0 <= addr <= 65535 ->
  (addr <= 65533 ->
   exists s',
     Eval.storeWord addr value s = Ok s' /\
     Eval.memory s' !! Z.to_nat addr = Some (Int.logical_and value 255) /\
     Int.logical_and value 255 = (if value =? 0 then 0 else 1) /\
     Eval.memory s' !! Z.to_nat (addr + 1)
       = Some (Int.and (Int.shr value 8) 255)) /\
  (65534 <= addr -> Eval.storeWord addr value s = Undefined).
Proof.
  intros Hwf Haddr. split; intros Hside.
  - apply storeWord_inside_cells; [assumption | lia].
  - apply storeWord_outside; [assumption | lia].
Qed.

Lemma storeWord_checked_address_witness :
  Eval.storeWord 65534 4660 Eval.CPUSim16Bit_new = Undefined.
Proof.
  apply (storeWord_checked_address Eval.CPUSim16Bit_new 65534 4660).
  - exact wf_new.
  - lia.
  - lia.
Defined.

(** C2 (the code at the failing addresses).  Among the addresses that
    pass the range check of the accessors, exactly 65534 and 65535 make
    [storeWord] and [loadWord] index the array outside its 65535 cells:
    the outcome is [Undefined] for them and only for them. *)
Theorem accessors_index_outside_array
  (s : Eval.CPUSim16Bit) (addr value : Z) :
  Eval.wf s -> Eval.addr_check addr = true ->
  (Eval.storeWord addr value s = Undefined <-> 65534 <= addr) /\
  (Eval.loadWord addr s = Undefined <-> 65534 <= addr).
Proof.
  intros Hwf Hcheck. apply addr_check_true in Hcheck.
  destruct (Z_le_gt_dec 65534 addr) as [Hout | Hin].
  - rewrite storeWord_outside, loadWord_outside by (auto; lia). tauto.
  - rewrite storeWord_inside by (auto; lia).
    destruct (loadWord_inside s addr Hwf) as (lo & hi & _ & _ & ->); [lia |].
    split; split; (discriminate || lia).
Qed.

Lemma accessors_index_outside_array_witness :
  (Eval.storeWord 65535 4660 Eval.CPUSim16Bit_new = Undefined
   <-> 65534 <= 65535) /\
  (Eval.loadWord 65535 Eval.CPUSim16Bit_new = Undefined <-> 65534 <= 65535).
Proof.
  apply (accessors_index_outside_array Eval.CPUSim16Bit_new 65535 4660).
  - exact wf_new.
  - reflexivity.
Defined.

(** Inside the array [loadWord] returns
    [(memory[addr+1] << 8) | memory[addr]]; when the two cells hold
    bytes this is the little-endian word
    [256 * memory[addr+1] + memory[addr]]. *)
Lemma loadWord_inside_little_endian (s : Eval.CPUSim16Bit) (addr : Z) :
  Eval.wf s -> 0 <= addr <= 65533 ->
  exists lo hi,
    Eval.memory s !! Z.to_nat addr = Some lo /\
    Eval.memory s !! Z.to_nat (addr + 1) = Some hi /\
    Eval.loadWord addr s = Ok (Int.or (Int.shl hi 8) lo) /\
    (0 <= lo < 256 -> 0 <= hi < 256 ->
     Eval.loadWord addr s = Ok (hi * 256 + lo)).
Proof.
  intros Hwf Haddr.
  destruct (loadWord_inside s addr Hwf Haddr) as (lo & hi & Hlo & Hhi & Hload).
  exists lo, hi. repeat split; try assumption.
  intros Blo Bhi. rewrite Hload, or_shl_bytes by assumption. reflexivity.
Qed.

(** C3 (the code on the addresses of the claim).  For an address with
    [0 <= addr <= 65535], [loadWord addr] returns
    [(memory[addr+1] << 8) | memory[addr]], the little-endian word with
    its low byte at [addr] and its high byte at [addr+1], as long as
    [addr <= 65533]; at 65534 and 65535 a cell to be read lies outside
    the 65535-cell array and the call returns no defined value. *)
Theorem loadWord_checked_address (s : Eval.CPUSim16Bit) (addr : Z) :
  Eval.wf s -> 0 <= addr <= 65535 ->
  (addr <= 65533 ->
   exists lo hi,
     Eval.memory s !! Z.to_nat addr = Some lo /\
     Eval.memory s !! Z.to_nat (addr + 1) = Some hi /\
     Eval.loadWord addr s = Ok (Int.or (Int.shl hi 8) lo) /\
     (0 <= lo < 256 -> 0 <= hi < 256 ->
      Eval.loadWord addr s = Ok (hi * 256 + lo))) /\
  (65534 <= addr ->
   Eval.memory s !! Z.to_nat (addr + 1) = None /\
   Eval.loadWord addr s = Undefined).
Proof.
  intros Hwf Haddr. split; intros Hside.
  - apply loadWord_inside_little_endian; [assumption | lia].
  - split; [| apply loadWord_outside; [assumption | lia]].
    apply lookup_ge_None_2. unfold Eval.wf, Eval.MEMORY_LEN in Hwf. lia.
Qed.

Lemma loadWord_checked_address_witness :
  Eval.memory Eval.CPUSim16Bit_new !! Z.to_nat (65534 + 1) = None /\
  Eval.loadWord 65534 Eval.CPUSim16Bit_new = Undefined.
Proof.
  apply (loadWord_checked_address Eval.CPUSim16Bit_new 65534).
  - exact wf_new.
  - lia.
  - lia.
Defined.

(** C9.  For an address with [addr < 0] or [addr > 65535], [loadWord]
    returns 0 and [storeWord] leaves the simulator, hence the whole
    memory array, as it was, whatever the value. *)
Theorem accessors_skip_rejected_address
  (s : Eval.CPUSim16Bit) (addr value : Z) :
  addr < 0 \/ addr > 65535 ->
  Eval.loadWord addr s = Ok 0 /\
  exists s', Eval.storeWord addr value s = Ok s' /\
             Eval.memory s' = Eval.memory s /\ s' = s.
Proof.
  intros Haddr. apply addr_check_false in Haddr.
  unfold Eval.loadWord, Eval.storeWord. rewrite Haddr.
  split; [reflexivity |]. exists s. auto.
Qed.

Lemma accessors_skip_rejected_address_witness :
  Eval.loadWord 65536 Eval.CPUSim16Bit_new = Ok 0 /\
  exists s', Eval.storeWord 65536 4660 Eval.CPUSim16Bit_new = Ok s' /\
             Eval.memory s' = Eval.memory Eval.CPUSim16Bit_new /\
             s' = Eval.CPUSim16Bit_new.
Proof.
  apply (accessors_skip_rejected_address Eval.CPUSim16Bit_new 65536 4660).
  right. lia.
Defined.

(** C4.  [run()] and [execute()] change nothing: the four registers, the
    memory array, the register map and the loaded program are as they
    were before the call. *)
Theorem run_and_execute_change_nothing (s : Eval.CPUSim16Bit) :
  let unchanged (s' : Eval.CPUSim16Bit) :=
    Eval.AX s' = Eval.AX s /\ Eval.BX s' = Eval.BX s /\
    Eval.CX s' = Eval.CX s /\ Eval.DX s' = Eval.DX s /\
    Eval.memory s' = Eval.memory s /\ Eval.regmap s' = Eval.regmap s /\
    Eval.program s' = Eval.program s in
  unchanged (Eval.run s) /\ unchanged (Eval.execute s).
Proof. unfold Eval.run, Eval.execute. cbv zeta. repeat split. Qed.

(** ** [eval.cpp]: [wrap16] *)

Lemma after_turns_succ (n : nat) (val : Z) :
  after_turns (S n) val = after_turns n (Int.add val 65535).
Proof.
  unfold after_turns. induction n as [| n IH]; [reflexivity |].
  simpl in *. rewrite IH. reflexivity.
Qed.

(** On a negative [int] the addition of the loop body is exact. *)
Lemma wrap16_loop_add_exact (val : Z) :
  Int.int_min <= val < 0 -> Int.add val 65535 = val + 65535.
Proof.
  intros H. apply add_exact. int_range.
Qed.

(** The loop stops after some number of turns, on the first value that
    is not negative. *)
Lemma wrap16_loop_stops (val : Z) :
  exists n : nat,
    (forall k : nat, (k < n)%nat -> after_turns k val < 0) /\
    0 <= after_turns n val /\
    Eval.wrap16_loop val = after_turns n val.
Proof.
  functional induction (Eval.wrap16_loop val) as [val Hneg IH | val Hpos].
  - destruct IH as (n & Hbefore & Hpos & Hloop).
    apply Z.ltb_lt in Hneg.
    exists (S n). rewrite after_turns_succ. repeat split.
    + intros [| k] Hk; [exact Hneg |].
      rewrite after_turns_succ. apply Hbefore. lia.
    + exact Hpos.
    + exact Hloop.
  - apply Z.ltb_ge in Hpos.
    exists 0%nat. repeat split.
    + intros k Hk. lia.
    + exact Hpos.
Qed.

(** C10.  For every [val], the loop of [wrap16] ends: after some number
    [n] of additions of 65535, the first non-negative value is reached;
    [wrap16 val] is that value modulo 65536 and lies in the range
    0 .. 65535. *)
Theorem wrap16_terminates_in_range (val : Z) :
  exists n : nat,
    (forall k : nat, (k < n)%nat -> after_turns k val < 0) /\
    0 <= after_turns n val /\
    Eval.wrap16 val = Int.rem (after_turns n val) 65536 /\
    0 <= Eval.wrap16 val <= 65535.
Proof.
  destruct (wrap16_loop_stops val) as (n & Hneg & Hpos & Heq).
  exists n. unfold Eval.wrap16. rewrite Heq.
  assert (Hrem : 0 <= Int.rem (after_turns n val) 65536 < 65536)
    by (apply Z.rem_bound_pos; lia).
  repeat split; try assumption; lia.
Qed.

Example wrap16_minus_5 : Eval.wrap16 (-5) = 65530.
Proof. reflexivity. Qed.

Example wrap16_minus_65536 : Eval.wrap16 (-65536) = 65534.
Proof. reflexivity. Qed.

Example wrap16_70000 : Eval.wrap16 70000 = 4464.
Proof. reflexivity. Qed.

(** ** [OperatorOverloading.cpp] *)

Section Operators.

Import OperatorOverloading.

(** Adding a non-zero [int] changes an [int]. *)
Lemma add_changes (x y : Z) :
  Int.in_range x -> Int.in_range y -> y <> 0 -> Int.add x y <> x.
Proof.
  unfold Int.in_range, Int.add, Int.wrap, Int.int_min, Int.int_max.
  intros Hx Hy Hne. Z.div_mod_to_equations. lia.
Qed.

Variable h : gmap positive Test.
Variables a b : positive.
Variables ta tb : Test.
Hypothesis Ha : h !! a = Some ta.
Hypothesis Hb : h !! b = Some tb.

Let sum : Z := Int.add (value ta) (value tb).

Lemma operator_plus_assign_eq :
  operator_plus_assign a b h = Some (Test_int sum, set_value a sum h).
Proof.
  unfold operator_plus_assign. rewrite Ha, Hb. simpl.
  unfold set_value. rewrite lookup_insert_eq. reflexivity.
Qed.

Lemma operator_plus_eq :
  operator_plus a b h = Some (Test_int sum, set_value a sum h).
Proof.
  unfold operator_plus. rewrite Ha, Hb. simpl.
  unfold set_value. rewrite lookup_insert_eq. reflexivity.
Qed.

Lemma set_value_left : set_value a sum h !! a = Some (Test_int sum).
Proof. unfold set_value. apply lookup_insert_eq. Qed.

Lemma set_value_other (c : positive) :
  c <> a -> set_value a sum h !! c = h !! c.
Proof. intros Hc. unfold set_value. apply lookup_insert_ne. auto. Qed.

(** C7 (as amended).  [a += b] sets [a.value] to the [int] sum of the
    previous [a.value] and [b.value] (the mathematical sum when it is
    an [int]) and returns an object holding that sum; every object
    other than [a] keeps its value, so [b.value] is unchanged when [b]
    is an object other than [a]. *)
Theorem plus_assign_effect :
  exists r h',
    operator_plus_assign a b h = Some (r, h') /\
    value <$> h' !! a = Some (Int.add (value ta) (value tb)) /\
    value r = Int.add (value ta) (value tb) /\
    (Int.in_range (value ta + value tb) ->
     Int.add (value ta) (value tb) = value ta + value tb) /\
    (a <> b -> h' !! b = Some tb) /\
    (forall c, c <> a -> h' !! c = h !! c).
Proof.
  exists (Test_int sum), (set_value a sum h).
  split; [apply operator_plus_assign_eq |].
  split; [rewrite set_value_left; reflexivity |].
  split; [reflexivity |].
  split; [apply add_exact |].
  split; [| apply set_value_other].
  intros Hne. rewrite set_value_other by auto. exact Hb.
Qed.

(** C8 (as amended).  [a + b] assigns to its left operand: afterwards
    [a.value] is the [int] sum of the previous [a.value] and [b.value],
    the returned object holds the same sum, and every object other than
    [a] keeps its value, so [b.value] is unchanged when [b] is an object
    other than [a].  The left operand does change whenever [b.value] is
    not zero. *)
Theorem plus_mutates_left_operand :
  exists r h',
    operator_plus a b h = Some (r, h') /\
    value <$> h' !! a = Some (Int.add (value ta) (value tb)) /\
    value r = Int.add (value ta) (value tb) /\
    (Int.in_range (value ta + value tb) ->
     Int.add (value ta) (value tb) = value ta + value tb) /\
    (a <> b -> h' !! b = Some tb) /\
    (forall c, c <> a -> h' !! c = h !! c) /\
    (Int.in_range (value ta) -> Int.in_range (value tb) -> value tb <> 0 ->
     value <$> h' !! a <> value <$> h !! a).
Proof.
  exists (Test_int sum), (set_value a sum h).
  split; [apply operator_plus_eq |].
  split; [rewrite set_value_left; reflexivity |].
  split; [reflexivity |].
  split; [apply add_exact |].
  split; [| split; [apply set_value_other |]].
  - intros Hne. rewrite set_value_other by auto. exact Hb.
  - intros Hra Hrb Hnz. rewrite set_value_left, Ha. simpl.
    intros [= Heq]. revert Heq. apply add_changes; assumption.
Qed.

End Operators.

Lemma plus_assign_effect_witness :
  exists r h',
    OperatorOverloading.operator_plus_assign
      1 2 OperatorOverloading.main_store = Some (r, h') /\
    OperatorOverloading.value <$> h' !! 1%positive = Some (Int.add 10 20) /\
    OperatorOverloading.value r = Int.add 10 20 /\
    (Int.in_range (10 + 20) -> Int.add 10 20 = 10 + 20) /\
    (1%positive <> 2%positive ->
     h' !! 2%positive = Some (OperatorOverloading.Test_int 20)) /\
    (forall c, c <> 1%positive ->
               h' !! c = OperatorOverloading.main_store !! c).
Proof.
  apply (plus_assign_effect OperatorOverloading.main_store 1 2
           (OperatorOverloading.Test_int 10) (OperatorOverloading.Test_int 20));
    reflexivity.
Defined.

(** C7 as stated fails when the two operands are one object: after
    [T1 += T1] with [T1.value = 10] the right operand holds 20. *)
Lemma plus_assign_same_object_changes_right_operand :
  exists r h',
    OperatorOverloading.operator_plus_assign
      1 1 OperatorOverloading.main_store = Some (r, h') /\
    OperatorOverloading.value <$> OperatorOverloading.main_store !! 1%positive
      = Some 10 /\
    OperatorOverloading.value <$> h' !! 1%positive = Some 20 /\
    OperatorOverloading.value <$> h' !! 1%positive
      <> OperatorOverloading.value
           <$> OperatorOverloading.main_store !! 1%positive.
Proof.
  eexists. eexists. split; [reflexivity |].
  split; [reflexivity |]. split; [reflexivity |]. discriminate.
Qed.

Lemma plus_mutates_left_operand_witness :
  exists r h',
    OperatorOverloading.operator_plus
      1 2 OperatorOverloading.main_store = Some (r, h') /\
    OperatorOverloading.value <$> h' !! 1%positive = Some (Int.add 10 20) /\
    OperatorOverloading.value r = Int.add 10 20 /\
    (Int.in_range (10 + 20) -> Int.add 10 20 = 10 + 20) /\
    (1%positive <> 2%positive ->
     h' !! 2%positive = Some (OperatorOverloading.Test_int 20)) /\
    (forall c, c <> 1%positive ->
               h' !! c = OperatorOverloading.main_store !! c) /\
    (Int.in_range 10 -> Int.in_range 20 -> 20 <> 0 ->
     OperatorOverloading.value <$> h' !! 1%positive
     <> OperatorOverloading.value
          <$> OperatorOverloading.main_store !! 1%positive).
Proof.
  apply (plus_mutates_left_operand OperatorOverloading.main_store 1 2
           (OperatorOverloading.Test_int 10) (OperatorOverloading.Test_int 20));
    reflexivity.
Defined.

(** C8 as stated fails when the two operands are one object: after
    [T1 + T1] with [T1.value = 10] the right operand holds 20. *)
Lemma plus_same_object_changes_right_operand :
  exists r h',
    OperatorOverloading.operator_plus
      1 1 OperatorOverloading.main_store = Some (r, h') /\
    OperatorOverloading.value <$> OperatorOverloading.main_store !! 1%positive
      = Some 10 /\
    OperatorOverloading.value <$> h' !! 1%positive = Some 20 /\
    OperatorOverloading.value <$> h' !! 1%positive
      <> OperatorOverloading.value
           <$> OperatorOverloading.main_store !! 1%positive.
Proof.
  eexists. eexists. split; [reflexivity |].
  split; [reflexivity |]. split; [reflexivity |]. discriminate.
Qed.

(** [main]: after [T1 += T2], [T1] holds 30 and [T2] still holds 20. *)
Example main_plus_assign :
  exists r h',
    OperatorOverloading.operator_plus_assign
      1 2 OperatorOverloading.main_store = Some (r, h') /\
    OperatorOverloading.value r = 30 /\
    OperatorOverloading.value <$> h' !! 1%positive = Some 30 /\
    OperatorOverloading.value <$> h' !! 2%positive = Some 20.
Proof. eexists. eexists. repeat split; reflexivity. Qed.

(** ** [multilvl.cpp] and [solutions/1.cpp]: the derived values *)

Lemma all_from_spec (f : Z -> bool) (count : nat) (start z : Z) :
  Accuracy.all_from f start count = true ->
  start <= z < start + Z.of_nat count -> f z = true.
Proof.
  revert start. induction count as [| count IH]; intros start Hall Hz.
  - lia.
  - simpl in Hall. apply andb_true_iff in Hall as [Hhead Htail].
    destruct (Z.eq_dec z start) as [-> | Hne]; [exact Hhead |].
    apply (IH (start + 1)); [exact Htail | lia].
Qed.




(** The marks 60, 70, 80, 90, 100 and 50 give the percentage 75. *)
Example calc_sample :
  Multilvl.per (fst (Multilvl.calc Multilvl.sample_result))
  = Float.float_of_int 75.
Proof. vm_compute. reflexivity. Qed.


(** [main]: [Car c1("C100", "Car", 15); c1.calculateFare(100, 3);]
    prints the fare 1350, and with two days the fare would be 1500. *)
Example calculateFare_main :
  Solutions1.calculateFare_2 100 3 Solutions1.c1
  = [Console.text "Fare with long-term discount: ₹";
     Console.float_value (Float.float_of_int 1350); Console.endl].
Proof. vm_compute. reflexivity. Qed.

Example calculateFare_two_days :
  Solutions1.calculateFare_2 100 2 Solutions1.c1
  = [Console.text "Fare with long-term discount: ₹";
     Console.float_value (Float.float_of_int 1500); Console.endl].
Proof. vm_compute. reflexivity. Qed.





(** A product that is no [int] either: 65536 kilometres at 65536 per
    kilometre are printed as the fare 0. *)
Example calculateFare_overflowing_product :
  Solutions1.calculateFare_2
    65536 2 (Solutions1.mkCar (Solutions1.mkVehicle "C300" "Car" 65536))
  = [Console.text "Fare with long-term discount: ₹";
     Console.float_value (Float.float_of_int 0); Console.endl].
Proof. vm_compute. reflexivity. Qed.

(** ** The simulator at work *)

(** A word written by [storeWord] does not read back: of 0x1234 the
    high byte 0x12 survives, the low byte is replaced by 1. *)
Example store_then_load :
  bind (Eval.storeWord 10 4660 Eval.CPUSim16Bit_new) (Eval.loadWord 10)
  = Ok 4609.
Proof. vm_compute. reflexivity. Qed.

Example isRegister_AX : Eval.isRegister "AX" Eval.CPUSim16Bit_new = true.
Proof. reflexivity. Qed.

Example isRegister_PC : Eval.isRegister "PC" Eval.CPUSim16Bit_new = false.
Proof. reflexivity. Qed.

(** * Further properties *)

(** ** [eval.cpp]: how the accessors compose *)

Lemma land_255_range (x : Z) : 0 <= Z.land x 255 <= 255.
Proof.
  change 255 with (Z.ones 8) at 1 2. rewrite Z.land_ones by lia.
  pose proof (Z.mod_pos_bound x (2 ^ 8)). lia.
Qed.

Lemma logical_and_range (x : Z) : 0 <= Int.logical_and x 255 <= 1.
Proof. rewrite logical_and_255. destruct (x =? 0); lia. Qed.

(** The word read from two known cells. *)
Lemma loadWord_of_cells (s : Eval.CPUSim16Bit) (addr lo hi : Z) :
  Eval.wf s -> 0 <= addr <= 65533 ->
  Eval.memory s !! Z.to_nat addr = Some lo ->
  Eval.memory s !! Z.to_nat (addr + 1) = Some hi ->
  Eval.loadWord addr s = Ok (Int.or (Int.shl hi 8) lo).
Proof.
  intros Hwf Haddr Hlo Hhi.
  destruct (loadWord_inside s addr Hwf Haddr) as (lo' & hi' & Hlo' & Hhi' & ->).
  congruence.
Qed.

Lemma wf_store_cells (s : Eval.CPUSim16Bit) (i j : nat) (u v : Z) :
  Eval.wf s ->
  Eval.wf (Eval.set_memory (<[i := u]> (<[j := v]> (Eval.memory s))) s).
Proof.
  intros Hwf. apply wf_set_memory; [| assumption].
  rewrite !length_insert. reflexivity.
Qed.

Lemma set_memory_twice (m m' : list Z) (s : Eval.CPUSim16Bit) :
  Eval.set_memory m (Eval.set_memory m' s) = Eval.set_memory m s.
Proof. reflexivity. Qed.

(** X1.  A word stored inside the array and read back at the same
    address is [256 * ((value >> 8) & 0xFF) + (value && 0xFF)]: the high
    byte of [value] over the truth value of [value].  For a 16-bit
    [value] the word read is the word stored only if [value] is 0 or its
    low byte is 1. *)
Theorem storeWord_then_loadWord (s : Eval.CPUSim16Bit) (addr value : Z) :
  Eval.wf s -> 0 <= addr <= 65533 ->
  bind (Eval.storeWord addr value s) (Eval.loadWord addr)
  = Ok (256 * Int.and (Int.shr value 8) 255 + Int.logical_and value 255) /\
  (0 <= value <= 65535 ->
   (bind (Eval.storeWord addr value s) (Eval.loadWord addr) = Ok value
    <-> value = 0 \/ value mod 256 = 1)).
Proof.
  intros Hwf Haddr.
  assert (Hread :
            bind (Eval.storeWord addr value s) (Eval.loadWord addr)
            = Ok (256 * Int.and (Int.shr value 8) 255
                  + Int.logical_and value 255)).
  { destruct (storeWord_inside_cells s addr value Hwf Haddr)
      as (s' & Hstore & Hlo & _ & Hhi).
    rewrite Hstore. simpl.
    rewrite (loadWord_of_cells s' addr _ _
               (storeWord_preserves_wf s s' addr value Hwf Hstore)
               Haddr Hlo Hhi).
    rewrite or_shl_bytes.
    - f_equal. lia.
    - pose proof (logical_and_range value). lia.
    - pose proof (land_255_range (Int.shr value 8)). unfold Int.and. lia. }
  split; [exact Hread |].
  intros Hvalue. rewrite Hread, logical_and_255.
  unfold Int.and, Int.shr.
  change 255 with (Z.ones 8). rewrite Z.land_ones, Z.shiftr_div_pow2 by lia.
  change (2 ^ 8) with 256.
  split.
  - intros [= Heq]. destruct (Z.eqb_spec value 0); [auto | right].
    Z.div_mod_to_equations. lia.
  - intros [-> | Hlow]; [reflexivity |].
    f_equal. destruct (Z.eqb_spec value 0); Z.div_mod_to_equations; lia.
Qed.

Lemma storeWord_then_loadWord_witness :
  bind (Eval.storeWord 10 4660 Eval.CPUSim16Bit_new) (Eval.loadWord 10)
  = Ok (256 * Int.and (Int.shr 4660 8) 255 + Int.logical_and 4660 255) /\
  (0 <= 4660 <= 65535 ->
   (bind (Eval.storeWord 10 4660 Eval.CPUSim16Bit_new) (Eval.loadWord 10)
    = Ok 4660
    <-> 4660 = 0 \/ 4660 mod 256 = 1)).
Proof.
  apply (storeWord_then_loadWord Eval.CPUSim16Bit_new 10 4660).
  - exact wf_new.
  - lia.
Defined.

(** The memory after a [storeWord] that returns: the two cells written
    when the address passes the range check, the array as it was
    otherwise. *)
Lemma storeWord_memory (s s' : Eval.CPUSim16Bit) (addr value : Z) :
  Eval.storeWord addr value s = Ok s' ->
  (Eval.addr_check addr = false /\ s' = s) \/
  (0 <= addr <= 65535 /\
   Eval.memory s'
   = <[Z.to_nat (addr + 1) := Int.and (Int.shr value 8) 255]>
       (<[Z.to_nat addr := Int.logical_and value 255]> (Eval.memory s))).
Proof.
  unfold Eval.storeWord.
  destruct (Eval.addr_check addr) eqn:Hcheck; [| intros [= <-]; auto].
  apply addr_check_true in Hcheck. rewrite next_addr by assumption.
  unfold Eval.array_write.
  repeat (case_match; simpl); intros [= <-]. right. auto.
Qed.

(** X2.  A [storeWord] that returns touches nothing but the two cells
    [addr] and [addr+1]: the array keeps its size, the registers, the
    register map and the program are as before, and so is every other
    cell. *)
Theorem storeWord_footprint (s s' : Eval.CPUSim16Bit) (addr value : Z) :
  Eval.wf s -> Eval.storeWord addr value s = Ok s' ->
  Eval.wf s' /\
  (Eval.AX s' = Eval.AX s /\ Eval.BX s' = Eval.BX s /\
   Eval.CX s' = Eval.CX s /\ Eval.DX s' = Eval.DX s /\
   Eval.regmap s' = Eval.regmap s /\ Eval.program s' = Eval.program s) /\
  (forall i : nat,
     i <> Z.to_nat addr -> i <> Z.to_nat (addr + 1) ->
     Eval.memory s' !! i = Eval.memory s !! i).
Proof.
  intros Hwf Hstore.
  split; [exact (storeWord_preserves_wf s s' addr value Hwf Hstore) |].
  split; [exact (storeWord_frame s s' addr value Hstore) |].
  intros i Hi Hi'.
  destruct (storeWord_memory s s' addr value Hstore) as [[_ ->] | [_ ->]];
    [reflexivity |].
  rewrite !list_lookup_insert_ne by auto. reflexivity.
Qed.

Lemma storeWord_footprint_witness :
  Eval.wf (Eval.set_memory
             (<[Z.to_nat (10 + 1) := Z.land (Z.shiftr 4660 8) 255]>
                (<[Z.to_nat 10 := if 4660 =? 0 then 0 else 1]>
                   (Eval.memory Eval.CPUSim16Bit_new)))
             Eval.CPUSim16Bit_new).
Proof.
  apply (storeWord_footprint Eval.CPUSim16Bit_new _ 10 4660).
  - exact wf_new.
  - apply storeWord_inside; [exact wf_new | lia].
Defined.

(** X3.  [storeWord] keeps the cells bytes: if every cell holds a value
    in 0 .. 255 before the call, so it does after it, whatever [int] is
    stored. *)
Theorem storeWord_keeps_bytes (s s' : Eval.CPUSim16Bit) (addr value : Z) :
  bytes_only s -> Eval.storeWord addr value s = Ok s' -> bytes_only s'.
Proof.
  unfold bytes_only. intros Hbytes Hstore.
  destruct (storeWord_memory s s' addr value Hstore) as [[_ ->] | [_ ->]];
    [assumption |].
  apply Forall_insert; [apply Forall_insert; [assumption |] |].
  - pose proof (logical_and_range value). lia.
  - apply land_255_range.
Qed.

Lemma bytes_only_new : bytes_only Eval.CPUSim16Bit_new.
Proof.
  unfold bytes_only, Eval.CPUSim16Bit_new. cbn [Eval.memory].
  apply Forall_replicate. lia.
Qed.

Lemma storeWord_keeps_bytes_witness :
  bytes_only
    (Eval.set_memory
       (<[Z.to_nat (10 + 1) := Z.land (Z.shiftr (-1) 8) 255]>
          (<[Z.to_nat 10 := if -1 =? 0 then 0 else 1]>
             (Eval.memory Eval.CPUSim16Bit_new)))
       Eval.CPUSim16Bit_new).
Proof.
  apply (storeWord_keeps_bytes Eval.CPUSim16Bit_new _ 10 (-1)).
  - exact bytes_only_new.
  - apply storeWord_inside; [exact wf_new | lia].
Defined.

(** What holds in every state of the simulator. *)
Lemma reachable_invariant (s : Eval.CPUSim16Bit) :
  reachable s ->
  Eval.wf s /\ bytes_only s /\
  Eval.regmap s = Eval.regmap Eval.CPUSim16Bit_new /\
  Eval.AX s = 0 /\ Eval.BX s = 0 /\ Eval.CX s = 0 /\ Eval.DX s = 0.
Proof.
  induction 1 as [| s s' addr value _ IH Hstore | s prog _ IH
                  | s _ IH | s _ IH]; try exact IH.
  - split; [exact wf_new |]. split; [exact bytes_only_new |]. repeat split.
  - destruct IH as (Hwf & Hbytes & Hmap & HA & HB & HC & HD).
    destruct (storeWord_frame s s' addr value Hstore)
      as (-> & -> & -> & -> & -> & _).
    split; [exact (storeWord_preserves_wf s s' addr value Hwf Hstore) |].
    split; [| auto].
    unfold bytes_only in *.
    destruct (storeWord_memory s s' addr value Hstore) as [[_ ->] | [_ ->]];
      [assumption |].
    repeat apply Forall_insert; try assumption.
    + pose proof (logical_and_range value). lia.
    + apply land_255_range.
Qed.

(** X4.  In every state of the simulator, [loadWord] at an address
    inside the array returns a 16-bit word, a value in 0 .. 65535. *)
Theorem loadWord_returns_word (s : Eval.CPUSim16Bit) (addr : Z) :
  reachable s -> 0 <= addr <= 65533 ->
  exists w, Eval.loadWord addr s = Ok w /\ 0 <= w <= 65535.
Proof.
  intros Hreach Haddr.
  destruct (reachable_invariant s Hreach) as (Hwf & Hbytes & _).
  destruct (loadWord_inside_little_endian s addr Hwf Haddr)
    as (lo & hi & Hlo & Hhi & _ & Hword).
  unfold bytes_only in Hbytes. rewrite Forall_lookup in Hbytes.
  pose proof (Hbytes _ _ Hlo) as Blo. pose proof (Hbytes _ _ Hhi) as Bhi.
  exists (hi * 256 + lo). split; [apply Hword; lia | lia].
Qed.

Lemma loadWord_returns_word_witness :
  exists w, Eval.loadWord 10 Eval.CPUSim16Bit_new = Ok w /\ 0 <= w <= 65535.
Proof.
  apply (loadWord_returns_word Eval.CPUSim16Bit_new 10).
  - exact reach_new.
  - lia.
Defined.

(** The state after two [storeWord] inside the array. *)
Lemma storeWord_twice (s : Eval.CPUSim16Bit) (a1 v1 a2 v2 : Z) :
  Eval.wf s -> 0 <= a1 <= 65533 -> 0 <= a2 <= 65533 ->
  bind (Eval.storeWord a1 v1 s) (Eval.storeWord a2 v2)
  = Ok (Eval.set_memory
          (<[Z.to_nat (a2 + 1) := Z.land (Z.shiftr v2 8) 255]>
             (<[Z.to_nat a2 := if v2 =? 0 then 0 else 1]>
                (<[Z.to_nat (a1 + 1) := Z.land (Z.shiftr v1 8) 255]>
                   (<[Z.to_nat a1 := if v1 =? 0 then 0 else 1]>
                      (Eval.memory s)))))
          s).
Proof.
  intros Hwf H1 H2.
  rewrite (storeWord_inside s a1 v1 Hwf H1). simpl.
  rewrite storeWord_inside by (try apply wf_store_cells; assumption).
  reflexivity.
Qed.

(** X5.  Words at neighbouring addresses share a cell: after a word is
    stored at [addr] and another at [addr+1], the word read at [addr]
    has lost the high byte of the first store; it is
    [256 * (v2 && 0xFF) + (v1 && 0xFF)]. *)
Theorem storeWord_neighbour_overwrites
  (s : Eval.CPUSim16Bit) (addr v1 v2 : Z) :
  Eval.wf s -> 0 <= addr <= 65532 ->
  bind (bind (Eval.storeWord addr v1 s) (Eval.storeWord (addr + 1) v2))
       (Eval.loadWord addr)
  = Ok (256 * Int.logical_and v2 255 + Int.logical_and v1 255).
Proof.
  intros Hwf Haddr.
  rewrite storeWord_twice by (assumption || lia). simpl.
  assert (Hlen : Z.of_nat (length (Eval.memory s)) = 65535) by exact Hwf.
  rewrite (loadWord_of_cells _ addr (Int.logical_and v1 255)
             (Int.logical_and v2 255)).
  - rewrite or_shl_bytes; [f_equal; lia | |];
      match goal with
      | |- context [Int.logical_and ?v 255] =>
          pose proof (logical_and_range v); lia
      end.
  - apply wf_set_memory; [| assumption]. rewrite !length_insert. reflexivity.
  - lia.
  - cbn [Eval.memory Eval.set_memory].
    rewrite !list_lookup_insert_ne by lia.
    rewrite list_lookup_insert_eq by lia.
    rewrite logical_and_255. reflexivity.
  - cbn [Eval.memory Eval.set_memory].
    rewrite list_lookup_insert_ne by lia.
    rewrite list_lookup_insert_eq by (rewrite !length_insert; lia).
    rewrite logical_and_255. reflexivity.
Qed.

Lemma storeWord_neighbour_overwrites_witness :
  bind (bind (Eval.storeWord 10 4660 Eval.CPUSim16Bit_new)
             (Eval.storeWord (10 + 1) 22136))
       (Eval.loadWord 10)
  = Ok (256 * Int.logical_and 22136 255 + Int.logical_and 4660 255).
Proof.
  apply (storeWord_neighbour_overwrites Eval.CPUSim16Bit_new 10 4660 22136).
  - exact wf_new.
  - lia.
Defined.

(** X6.  Stores to words that do not overlap commute: for two addresses
    inside the array that are at least two cells apart, the state after
    the two calls does not depend on their order. *)
Theorem storeWord_disjoint_commute
  (s : Eval.CPUSim16Bit) (a1 v1 a2 v2 : Z) :
  Eval.wf s -> 0 <= a1 <= 65533 -> 0 <= a2 <= 65533 -> a1 + 2 <= a2 ->
  bind (Eval.storeWord a1 v1 s) (Eval.storeWord a2 v2)
  = bind (Eval.storeWord a2 v2 s) (Eval.storeWord a1 v1).
Proof.
  intros Hwf H1 H2 Hfar.
  rewrite !storeWord_twice by assumption.
  do 2 f_equal.
  rewrite (list_insert_insert_ne _ (Z.to_nat a2) (Z.to_nat (a1 + 1))) by lia.
  rewrite (list_insert_insert_ne _ (Z.to_nat a2) (Z.to_nat a1)) by lia.
  rewrite (list_insert_insert_ne _ (Z.to_nat (a2 + 1)) (Z.to_nat (a1 + 1)))
    by lia.
  rewrite (list_insert_insert_ne _ (Z.to_nat (a2 + 1)) (Z.to_nat a1)) by lia.
  reflexivity.
Qed.

Lemma storeWord_disjoint_commute_witness :
  bind (Eval.storeWord 10 4660 Eval.CPUSim16Bit_new) (Eval.storeWord 12 22136)
  = bind (Eval.storeWord 12 22136 Eval.CPUSim16Bit_new) (Eval.storeWord 10 4660).
Proof.
  apply (storeWord_disjoint_commute Eval.CPUSim16Bit_new 10 4660 12 22136).
  - exact wf_new.
  - lia.
  - lia.
  - lia.
Defined.

(** X7.  The last store to an address wins: storing twice at the same
    address inside the array leaves the state of the second store
    alone. *)
Theorem storeWord_last_wins (s : Eval.CPUSim16Bit) (addr v1 v2 : Z) :
  Eval.wf s -> 0 <= addr <= 65533 ->
  bind (Eval.storeWord addr v1 s) (Eval.storeWord addr v2)
  = Eval.storeWord addr v2 s.
Proof.
  intros Hwf Haddr.
  rewrite storeWord_twice, storeWord_inside by assumption.
  do 2 f_equal.
  rewrite (list_insert_insert_ne _ (Z.to_nat addr) (Z.to_nat (addr + 1)))
    by lia.
  rewrite !list_insert_insert_eq.
  reflexivity.
Qed.

Lemma storeWord_last_wins_witness :
  bind (Eval.storeWord 10 4660 Eval.CPUSim16Bit_new) (Eval.storeWord 10 22136)
  = Eval.storeWord 10 22136 Eval.CPUSim16Bit_new.
Proof.
  apply (storeWord_last_wins Eval.CPUSim16Bit_new 10 4660 22136).
  - exact wf_new.
  - lia.
Defined.

(** ** [eval.cpp]: what [wrap16] computes *)

Lemma wrap16_loop_value (val : Z) :
  (0 <= val -> Eval.wrap16_loop val = val) /\
  (Int.int_min <= val < 0 -> Eval.wrap16_loop val = val mod 65535).
Proof.
  functional induction (Eval.wrap16_loop val) as [val Hneg IH | val Hpos].
  - apply Z.ltb_lt in Hneg. split; [lia |]. intros Hval.
    rewrite wrap16_loop_add_exact in * by lia.
    destruct IH as [IHpos IHneg].
    destruct (Z_lt_dec (val + 65535) 0) as [Hstill | Hdone].
    + rewrite IHneg by (unfold Int.int_min in *; lia).
      unfold Int.int_min in *. Z.div_mod_to_equations. lia.
    + rewrite IHpos by lia. Z.div_mod_to_equations. lia.
  - apply Z.ltb_ge in Hpos. split; [reflexivity | lia].
Qed.

(** X9.  [wrap16] reduces a non-negative [int] modulo 65536 and a
    negative [int] modulo 65535: a negative [val] is mapped into
    0 .. 65534. *)
Theorem wrap16_value (val : Z) :
  Int.in_range val ->
  (0 <= val -> Eval.wrap16 val = val mod 65536) /\
  (val < 0 -> Eval.wrap16 val = val mod 65535 /\ Eval.wrap16 val <= 65534).
Proof.
  intros Hrange. unfold Eval.wrap16, Int.rem.
  destruct (wrap16_loop_value val) as [Hpos Hneg]. split; intros Hval.
  - rewrite Hpos by assumption. apply Z.rem_mod_nonneg; lia.
  - rewrite Hneg by int_range.
    pose proof (Z.mod_pos_bound val 65535 ltac:(lia)) as Hmod.
    rewrite Z.rem_small by lia. lia.
Qed.

Lemma wrap16_value_witness :
  Eval.wrap16 (-1) = (-1) mod 65535 /\ Eval.wrap16 (-1) <= 65534.
Proof.
  apply (wrap16_value (-1)).
  - unfold Int.in_range, Int.int_min, Int.int_max. lia.
  - lia.
Defined.

(** X10.  On a negative [int], [wrap16] never gives the 16-bit
    two's-complement value [val mod 65536]. *)
Theorem wrap16_not_twos_complement (val : Z) :
  Int.in_range val -> val < 0 -> Eval.wrap16 val <> val mod 65536.
Proof.
  intros Hrange Hneg. unfold Eval.wrap16, Int.rem.
  destruct (wrap16_loop_value val) as [_ Hloop].
  rewrite Hloop by int_range.
  pose proof (Z.mod_pos_bound val 65535 ltac:(lia)) as Hmod.
  rewrite Z.rem_small by lia.
  unfold Int.in_range, Int.int_min, Int.int_max in Hrange.
  intros Heq.
  pose proof (Z.div_mod val 65535 ltac:(lia)) as H1.
  pose proof (Z.div_mod val 65536 ltac:(lia)) as H2.
  rewrite <- Heq in H2.
  assert (Hq : 65535 * (val / 65535) = 65536 * (val / 65536)) by lia.
  assert (Hq1 : -32769 <= val / 65535 < 0) by (Z.div_mod_to_equations; lia).
  lia.
Qed.

Lemma wrap16_not_twos_complement_witness :
  Eval.wrap16 (-1) <> (-1) mod 65536.
Proof.
  apply (wrap16_not_twos_complement (-1)).
  - unfold Int.in_range, Int.int_min, Int.int_max. lia.
  - lia.
Defined.

(** X11.  [wrap16] is idempotent: a value it has returned is returned
    unchanged. *)
Theorem wrap16_idempotent (val : Z) :
  Eval.wrap16 (Eval.wrap16 val) = Eval.wrap16 val.
Proof.
  destruct (wrap16_loop_stops val) as (n & _ & Hpos & Hloop).
  assert (Hrange : 0 <= Eval.wrap16 val < 65536).
  { unfold Eval.wrap16, Int.rem. rewrite Hloop.
    apply Z.rem_bound_pos; lia. }
  unfold Eval.wrap16 at 1. unfold Int.rem.
  rewrite (proj1 (wrap16_loop_value _)) by lia.
  apply Z.rem_small. lia.
Qed.

(** ** [OperatorOverloading.cpp]: how the operators relate *)

Lemma wrap_add_l (x y : Z) : Int.wrap (Int.wrap x + y) = Int.wrap (x + y).
Proof.
  unfold Int.wrap. f_equal.
  replace ((x + 2147483648) mod 4294967296 - 2147483648 + y + 2147483648)
    with ((x + 2147483648) mod 4294967296 + y) by lia.
  rewrite Z.add_mod_idemp_l by lia. f_equal. lia.
Qed.

Lemma add_add_swap (x y z : Z) :
  Int.add (Int.add x y) z = Int.add (Int.add x z) y.
Proof.
  unfold Int.add. rewrite !wrap_add_l. f_equal. lia.
Qed.

(** X12.  [a + b] does exactly what [a += b] does: for every two
    operands, the same object or not, the two operators leave the same
    store and return objects that are equal. *)
Theorem plus_is_plus_assign
  (h : gmap positive OperatorOverloading.Test) (this obj : positive) :
  OperatorOverloading.operator_plus this obj h
  = OperatorOverloading.operator_plus_assign this obj h.
Proof.
  unfold OperatorOverloading.operator_plus,
    OperatorOverloading.operator_plus_assign.
  destruct (h !! this) as [t |]; [| reflexivity].
  destruct (h !! obj) as [o |]; [| reflexivity].
  simpl.
  destruct (OperatorOverloading.set_value _ _ h !! this) as [[v] |];
    reflexivity.
Qed.

(** X13.  Accumulating two objects into a third does not depend on the
    order: for [b] and [c] other than [a], [a += b; a += c] and
    [a += c; a += b] leave the same store and return the same value,
    also when the [int] sums wrap around. *)
Theorem plus_assign_order
  (h : gmap positive OperatorOverloading.Test) (a b c : positive) :
  a <> b -> a <> c ->
  (r ← OperatorOverloading.operator_plus_assign a b h;
   OperatorOverloading.operator_plus_assign a c r.2)
  = (r ← OperatorOverloading.operator_plus_assign a c h;
     OperatorOverloading.operator_plus_assign a b r.2).
Proof.
  intros Hab Hac.
  unfold OperatorOverloading.operator_plus_assign,
    OperatorOverloading.set_value.
  destruct (h !! a) as [[va] |] eqn:Ha; [| reflexivity].
  destruct (h !! b) as [[vb] |] eqn:Hb; destruct (h !! c) as [[vc] |] eqn:Hc;
    simpl; rewrite ?lookup_insert_eq; simpl;
    rewrite ?lookup_insert_eq, ?lookup_insert_ne, ?Hb, ?Hc by assumption;
    simpl; rewrite ?lookup_insert_eq; simpl;
    rewrite ?insert_insert_eq; try reflexivity.
  rewrite (add_add_swap va vb vc). reflexivity.
Qed.

Lemma plus_assign_order_witness :
  (r ← OperatorOverloading.operator_plus_assign
         1 2 (<[3%positive := OperatorOverloading.Test_int 2147483647]>
                OperatorOverloading.main_store);
   OperatorOverloading.operator_plus_assign 1 3 r.2)
  = (r ← OperatorOverloading.operator_plus_assign
           1 3 (<[3%positive := OperatorOverloading.Test_int 2147483647]>
                  OperatorOverloading.main_store);
     OperatorOverloading.operator_plus_assign 1 2 r.2).
Proof.
  apply (plus_assign_order
           (<[3%positive := OperatorOverloading.Test_int 2147483647]>
              OperatorOverloading.main_store) 1 2 3); discriminate.
Defined.

Lemma incr_times_value
  (n : nat) (h : gmap positive OperatorOverloading.Test)
  (a : positive) (v : Z) :
  h !! a = Some (OperatorOverloading.Test_int v) ->
  incr_times (S n) a h
  = Some (OperatorOverloading.set_value a
            (Int.wrap (v + Z.of_nat (S n))) h).
Proof.
  revert h v. induction n as [| n IH]; intros h v Ha.
  - simpl. unfold OperatorOverloading.operator_incr. rewrite Ha. reflexivity.
  - change (incr_times (S (S n)) a h)
      with (h' ← OperatorOverloading.operator_incr a h; incr_times (S n) a h').
    unfold OperatorOverloading.operator_incr at 1. rewrite Ha. simpl option_bind.
    cbn [mbind option_bind].
    rewrite (IH _ (Int.add v 1))
      by (unfold OperatorOverloading.set_value; apply lookup_insert_eq).
    unfold OperatorOverloading.set_value. rewrite insert_insert_eq.
    do 3 f_equal. unfold Int.add. rewrite wrap_add_l. f_equal. lia.
Qed.

(** X14.  [++a] evaluated [n >= 1] times adds [n] to [a.value] in [int]
    arithmetic, wrapping from 2147483647 to -2147483648, and leaves
    every other object as it was. *)
Theorem incr_times_adds
  (n : nat) (h : gmap positive OperatorOverloading.Test)
  (a : positive) (t : OperatorOverloading.Test) :
  h !! a = Some t -> (1 <= n)%nat ->
  exists h',
    incr_times n a h = Some h' /\
    OperatorOverloading.value <$> h' !! a
      = Some (Int.wrap (OperatorOverloading.value t + Z.of_nat n)) /\
    (forall c, c <> a -> h' !! c = h !! c).
Proof.
  intros Ha Hn. destruct n as [| n]; [lia |]. destruct t as [v].
  eexists. split; [apply incr_times_value; exact Ha |].
  unfold OperatorOverloading.set_value. split.
  - rewrite lookup_insert_eq. reflexivity.
  - intros c Hc. apply lookup_insert_ne. auto.
Qed.

Lemma incr_times_adds_witness :
  exists h',
    incr_times 2 1 (<[1%positive := OperatorOverloading.Test_int 2147483647]>
       (∅ : gmap positive OperatorOverloading.Test))
    = Some h' /\
    OperatorOverloading.value <$> h' !! 1%positive
      = Some (Int.wrap (2147483647 + Z.of_nat 2)) /\
    (forall c, c <> 1%positive ->
       h' !! c
       = (<[1%positive := OperatorOverloading.Test_int 2147483647]>
       (∅ : gmap positive OperatorOverloading.Test)) !! c).
Proof.
  apply (incr_times_adds 2 _ 1 (OperatorOverloading.Test_int 2147483647)).
  - reflexivity.
  - lia.
Defined.

(** ** [multilvl.cpp] and [solutions/1.cpp]: more on the derived values *)

Lemma order_lt_trans (x y z : spec_float) :
  Order.lt x y = true -> Order.lt y z = true -> Order.lt x z = true.
Proof.
  unfold Order.lt.
  destruct (Float.scaled x), (Float.scaled y), (Float.scaled z);
    try discriminate.
  rewrite !Z.ltb_lt. lia.
Qed.

Lemma order_lt_le (x y : spec_float) :
  Order.lt x y = true -> Order.le x y = true.
Proof.
  unfold Order.lt, Order.le.
  destruct (Float.scaled x), (Float.scaled y); try discriminate.
  rewrite Z.ltb_lt, Z.leb_le. lia.
Qed.

(** A function that grows at every step of a range grows along it. *)
Lemma order_lt_chain (f : Z -> spec_float) (lo hi : Z) :
  (forall t, lo <= t < hi -> Order.lt (f t) (f (t + 1)) = true) ->
  forall t1 t2, lo <= t1 -> t1 < t2 -> t2 <= hi ->
                Order.lt (f t1) (f t2) = true.
Proof.
  intros Hstep t1 t2 Hlo Hlt Hhi.
  replace t2 with (t1 + 1 + Z.of_nat (Z.to_nat (t2 - t1 - 1))) in * by lia.
  induction (Z.to_nat (t2 - t1 - 1)) as [| n IH].
  - rewrite Z.add_0_r. apply Hstep. lia.
  - apply order_lt_trans with (f (t1 + 1 + Z.of_nat n)); [apply IH; lia |].
    replace (t1 + 1 + Z.of_nat (S n)) with (t1 + 1 + Z.of_nat n + 1) by lia.
    apply Hstep. lia.
Qed.

Lemma per_step_upto_600 :
  Accuracy.all_from Checks.per_step_ok 0 (Z.to_nat 600) = true.
Proof. vm_compute. reflexivity. Qed.

Lemma per_range_upto_600 :
  Accuracy.all_from
    (fun t => Order.le (Float.float_of_int 0) (Accuracy.per_of_total t)
              && Order.le (Accuracy.per_of_total t) (Float.float_of_int 100))
    0 (Z.to_nat 601) = true.
Proof. vm_compute. reflexivity. Qed.

Lemma total_of_marks (r : Multilvl.StdResult) :
  Forall (fun m => 0 <= m <= 100)
         [Multilvl.s1 r; Multilvl.s2 r; Multilvl.s3 r;
          Multilvl.s4 r; Multilvl.s5 r; Multilvl.s6 r] ->
  Multilvl.total r
  = Multilvl.s1 r + Multilvl.s2 r + Multilvl.s3 r
    + Multilvl.s4 r + Multilvl.s5 r + Multilvl.s6 r /\
  0 <= Multilvl.total r <= 600.
Proof.
  intros Hmarks.
  repeat match goal with
         | H : Forall _ (_ :: _) |- _ => apply Forall_cons in H as [? H]
         end.
  assert (Htotal : Multilvl.total r
                   = Multilvl.s1 r + Multilvl.s2 r + Multilvl.s3 r
                     + Multilvl.s4 r + Multilvl.s5 r + Multilvl.s6 r).
  { unfold Multilvl.total. repeat rewrite add_exact; int_range. }
  split; [exact Htotal | lia].
Qed.

Lemma calc_per (r : Multilvl.StdResult) :
  Multilvl.per (fst (Multilvl.calc r))
  = Accuracy.per_of_total (Multilvl.total r).
Proof.
  unfold Multilvl.calc, Accuracy.per_of_total.
  cbn [fst Multilvl.set_per Multilvl.per]. reflexivity.
Qed.

(** X15.  For marks between 0 and 100 the percentage that [calc()]
    stores lies between 0 and 100, and it orders the students as their
    totals do: a higher total gives a strictly higher percentage. *)
Theorem calc_orders_by_total (r1 r2 : Multilvl.StdResult) :
  let marks (r : Multilvl.StdResult) :=
    [Multilvl.s1 r; Multilvl.s2 r; Multilvl.s3 r;
     Multilvl.s4 r; Multilvl.s5 r; Multilvl.s6 r] in
  let sum (r : Multilvl.StdResult) :=
    Multilvl.s1 r + Multilvl.s2 r + Multilvl.s3 r
    + Multilvl.s4 r + Multilvl.s5 r + Multilvl.s6 r in
  Forall (fun m => 0 <= m <= 100) (marks r1) ->
  Forall (fun m => 0 <= m <= 100) (marks r2) ->
  Order.le (Float.float_of_int 0) (Multilvl.per (fst (Multilvl.calc r1))) = true /\
  Order.le (Multilvl.per (fst (Multilvl.calc r1))) (Float.float_of_int 100) = true /\
  (sum r1 < sum r2 ->
   Order.lt (Multilvl.per (fst (Multilvl.calc r1)))
            (Multilvl.per (fst (Multilvl.calc r2))) = true).
Proof.
  cbv zeta. intros Hm1 Hm2.
  destruct (total_of_marks r1 Hm1) as [Hsum1 Hrange1].
  destruct (total_of_marks r2 Hm2) as [Hsum2 Hrange2].
  rewrite <- Hsum1, <- Hsum2, !calc_per.
  pose proof (all_from_spec _ _ _ (Multilvl.total r1) per_range_upto_600) as Hr.
  cbv beta in Hr. apply andb_true_iff in Hr; [| lia].
  split; [apply Hr |]. split; [apply Hr |].
  intros Hlt.
  apply (order_lt_chain Accuracy.per_of_total 0 600); try lia.
  intros t Ht.
  apply (all_from_spec _ _ _ t per_step_upto_600). lia.
Qed.

Lemma calc_orders_by_total_witness :
  Order.lt (Multilvl.per (fst (Multilvl.calc Multilvl.sample_result)))
           (Multilvl.per
              (fst (Multilvl.calc
                      (Multilvl.mkStdResult 2 "B" 60 70 80 90 100 51 S754_nan))))
  = true.
Proof.
  apply (calc_orders_by_total Multilvl.sample_result
           (Multilvl.mkStdResult 2 "B" 60 70 80 90 100 51 S754_nan)).
  - repeat constructor; simpl; lia.
  - repeat constructor; simpl; lia.
  - simpl. lia.
Defined.

Lemma mean_ok_upto_300 :
  Accuracy.all_from Checks.mean_ok 0 (Z.to_nat 301) = true.
Proof. vm_compute. reflexivity. Qed.

Lemma Marks_new_avg (t0 : Z) (a0 : spec_float) (r : Z) (n : string)
    (a a1 a2 a3 : Z) :
  Solutions1.Problem1.avg (Solutions1.Problem1.Marks_new t0 a0 r n a a1 a2 a3)
  = Checks.avg_of_total (Int.add (Int.add a1 a2) a3).
Proof.
  unfold Solutions1.Problem1.Marks_new, Solutions1.Problem1.calculate,
    Checks.avg_of_total.
  cbn [Solutions1.Problem1.avg Solutions1.Problem1.m1 Solutions1.Problem1.m2
       Solutions1.Problem1.m3].
  reflexivity.
Qed.

(** X16.  A [Marks] object is constructed with its results computed,
    whatever [total] and [avg] held before: for three marks between 0
    and 100, [total] is their sum and [avg] is a third of it up to the
    rounding of a [float] (exact when the sum is a multiple of 3), a
    value between 0 and 100. *)
Theorem Marks_constructed_with_results
  (t0 : Z) (a0 : spec_float) (r : Z) (n : string) (a a1 a2 a3 : Z) :
  0 <= a1 <= 100 -> 0 <= a2 <= 100 -> 0 <= a3 <= 100 ->
  let m := Solutions1.Problem1.Marks_new t0 a0 r n a a1 a2 a3 in
  Solutions1.Problem1.total m = a1 + a2 + a3 /\
  Accuracy.close_to (Solutions1.Problem1.avg m) (a1 + a2 + a3) 3 = true /\
  ((a1 + a2 + a3) mod 3 = 0 ->
   Accuracy.exactly (Solutions1.Problem1.avg m) ((a1 + a2 + a3) / 3) = true) /\
  Order.le (Float.float_of_int 0) (Solutions1.Problem1.avg m) = true /\
  Order.le (Solutions1.Problem1.avg m) (Float.float_of_int 100) = true.
Proof.
  intros H1 H2 H3. cbv zeta.
  assert (Hsum : Int.add (Int.add a1 a2) a3 = a1 + a2 + a3)
    by (repeat rewrite add_exact; int_range).
  rewrite Marks_new_avg, Hsum.
  split; [exact Hsum |].
  pose proof (all_from_spec _ _ _ (a1 + a2 + a3) mean_ok_upto_300) as Hok.
  unfold Checks.mean_ok in Hok.
  rewrite !andb_true_iff in Hok. destruct Hok as [[[Hc He] Hlo] Hhi]; [lia |].
  repeat split; try assumption.
  intros Hmod. apply Z.eqb_eq in Hmod. rewrite Hmod in He. exact He.
Qed.

(** [main]: [Marks m1(101, "Alice", 20, 89, 76, 91);] has the total
    256. *)
Lemma Marks_constructed_with_results_witness :
  Solutions1.Problem1.total
    (Solutions1.Problem1.Marks_new 0 S754_nan 101 "Alice" 20 89 76 91)
  = 89 + 76 + 91.
Proof.
  apply (Marks_constructed_with_results 0 S754_nan 101 "Alice" 20 89 76 91);
    lia.
Defined.

Lemma fare_order_upto_10000 :
  Accuracy.all_from Checks.fare_order_ok (-10000) (Z.to_nat 20001) = true.
Proof. vm_compute. reflexivity. Qed.

(** X17.  For a product [distance * ratePerKm] between -10000 and 10000,
    the fare printed for more than two days lies between zero and the
    fare printed for at most two days: strictly below it for a positive
    product, and strictly above it for a negative one, which the
    discount brings closer to zero. *)
Theorem calculateFare_discount_towards_zero
  (c : Solutions1.Car) (distance short long : Z) :
  short <= 2 -> 2 < long ->
  -10000 <= distance * Solutions1.ratePerKm (Solutions1.vehicle c) <= 10000 ->
  exists plain discounted,
    Solutions1.calculateFare_2 distance short c
    = [Console.text "Fare with long-term discount: ₹";
       Console.float_value plain; Console.endl] /\
    Solutions1.calculateFare_2 distance long c
    = [Console.text "Fare with long-term discount: ₹";
       Console.float_value discounted; Console.endl] /\
    (0 < distance * Solutions1.ratePerKm (Solutions1.vehicle c) ->
     Order.lt (Float.float_of_int 0) discounted = true /\
     Order.lt discounted plain = true) /\
    (distance * Solutions1.ratePerKm (Solutions1.vehicle c) < 0 ->
     Order.lt plain discounted = true /\
     Order.lt discounted (Float.float_of_int 0) = true) /\
    (distance * Solutions1.ratePerKm (Solutions1.vehicle c) = 0 ->
     Accuracy.exactly plain 0 = true /\ Accuracy.exactly discounted 0 = true).
Proof.
  intros Hshort Hlong Hrange.
  set (p := distance * Solutions1.ratePerKm (Solutions1.vehicle c)) in *.
  assert (Hmul : Int.mul distance (Solutions1.ratePerKm (Solutions1.vehicle c))
                 = p) by (apply wrap_in_range; int_range).
  exists (Accuracy.plain_fare p), (Accuracy.discounted_fare p).
  split; [| split].
  - unfold Solutions1.calculateFare_2. rewrite Hmul.
    destruct (Z.gtb_spec short 2) as [Hgt | Hle]; [lia | reflexivity].
  - unfold Solutions1.calculateFare_2. rewrite Hmul.
    destruct (Z.gtb_spec long 2) as [Hgt | Hle]; [reflexivity | lia].
  - pose proof (all_from_spec _ _ _ p fare_order_upto_10000) as Hok.
    unfold Checks.fare_order_ok in Hok.
    split; [| split]; intros Hp.
    + replace (0 <? p) with true in Hok by (symmetry; apply Z.ltb_lt; lia).
      apply andb_true_iff. apply Hok. lia.
    + replace (0 <? p) with false in Hok by (symmetry; apply Z.ltb_ge; lia).
      replace (p <? 0) with true in Hok by (symmetry; apply Z.ltb_lt; lia).
      apply andb_true_iff. apply Hok. lia.
    + replace (0 <? p) with false in Hok by (symmetry; apply Z.ltb_ge; lia).
      replace (p <? 0) with false in Hok by (symmetry; apply Z.ltb_ge; lia).
      apply andb_true_iff. apply Hok. lia.
Qed.

Lemma calculateFare_discount_towards_zero_witness :
  exists plain discounted,
    Solutions1.calculateFare_2 100 2 Solutions1.c1
    = [Console.text "Fare with long-term discount: ₹";
       Console.float_value plain; Console.endl] /\
    Solutions1.calculateFare_2 100 3 Solutions1.c1
    = [Console.text "Fare with long-term discount: ₹";
       Console.float_value discounted; Console.endl] /\
    Order.lt (Float.float_of_int 0) discounted = true /\
    Order.lt discounted plain = true.
Proof.
  destruct (calculateFare_discount_towards_zero Solutions1.c1 100 2 3)
    as (plain & discounted & Hplain & Hdisc & Hpos & _); [lia | lia | simpl; lia |].
  exists plain, discounted. split; [exact Hplain |]. split; [exact Hdisc |].
  apply Hpos. simpl. lia.
Defined.

(** X18.  With no student in the department the placement percentage
    is no number: the division by zero gives an infinity or a NaN, and
    a NaN when nobody is placed either. *)
Theorem placement_percent_of_no_students (p : Solutions1.Problem5.Placement) :
  Solutions1.Problem5.numberOfStudents p = 0 ->
  (Solutions1.Problem5.percent p = S754_nan \/
   exists sign, Solutions1.Problem5.percent p = S754_infinity sign) /\
  Float.scaled (Solutions1.Problem5.percent p) = None /\
  (Solutions1.Problem5.placed p = 0 ->
   Solutions1.Problem5.percent p = S754_nan).
Proof.
  intros Hnone. unfold Solutions1.Problem5.percent. rewrite Hnone.
  replace (Float.double_of_int 0) with (S754_zero false) by reflexivity.
  split; [| split].
  - destruct (Float.double_mul _ _) as [s | s | | s m e]; simpl; eauto.
  - destruct (Float.double_mul _ _) as [s | s | | s m e]; reflexivity.
  - intros ->. reflexivity.
Qed.

Lemma placement_percent_of_no_students_witness :
  Solutions1.Problem5.percent (Solutions1.Problem5.mkPlacement "CSE" 0 98)
  = S754_nan \/
  exists sign,
    Solutions1.Problem5.percent (Solutions1.Problem5.mkPlacement "CSE" 0 98)
    = S754_infinity sign.
Proof.
  apply (placement_percent_of_no_students
           (Solutions1.Problem5.mkPlacement "CSE" 0 98)).
  reflexivity.
Defined.

Example placement_percent_98_of_0 :
  Solutions1.Problem5.percent (Solutions1.Problem5.mkPlacement "CSE" 0 98)
  = S754_infinity false.
Proof. vm_compute. reflexivity. Qed.

Lemma placement_ok_upto_150 :
  Accuracy.all_from Checks.placement_row_ok 1 (Z.to_nat 150) = true.
Proof. vm_compute. reflexivity. Qed.

(** X19.  For a department of 1 to 150 students of which 0 to all are
    placed, the placement percentage is [100 * placed /
    numberOfStudents] up to the rounding of a [float]; it is not
    negative, it is exactly 100 when all are placed and it is below 100
    otherwise. *)
Theorem placement_percent_in_range (p : Solutions1.Problem5.Placement) :
  1 <= Solutions1.Problem5.numberOfStudents p <= 150 ->
  0 <= Solutions1.Problem5.placed p <= Solutions1.Problem5.numberOfStudents p ->
  Accuracy.close_to (Solutions1.Problem5.percent p)
                    (100 * Solutions1.Problem5.placed p)
                    (Solutions1.Problem5.numberOfStudents p) = true /\
  Order.le (Float.float_of_int 0) (Solutions1.Problem5.percent p) = true /\
  (Solutions1.Problem5.placed p = Solutions1.Problem5.numberOfStudents p ->
   Accuracy.exactly (Solutions1.Problem5.percent p) 100 = true) /\
  (Solutions1.Problem5.placed p < Solutions1.Problem5.numberOfStudents p ->
   Order.lt (Solutions1.Problem5.percent p) (Float.float_of_int 100) = true).
Proof.
  destruct p as [dept n k]. cbn [Solutions1.Problem5.numberOfStudents
                                   Solutions1.Problem5.placed].
  intros Hn Hk.
  pose proof (all_from_spec _ _ _ n placement_ok_upto_150) as Hrow.
  unfold Checks.placement_row_ok in Hrow.
  pose proof (all_from_spec _ _ _ k (Hrow ltac:(lia))) as Hok.
  unfold Checks.placement_ok in Hok. cbv zeta in Hok.
  change (Solutions1.Problem5.percent (Solutions1.Problem5.mkPlacement "" n k))
    with (Solutions1.Problem5.percent (Solutions1.Problem5.mkPlacement dept n k))
    in Hok.
  rewrite !andb_true_iff in Hok. destruct Hok as [[Hclose Hlo] Hhi]; [lia |].
  repeat split; try assumption.
  - intros Heq. apply Z.eqb_eq in Heq. rewrite Heq in Hhi. exact Hhi.
  - intros Hlt. replace (k =? n) with false in Hhi; [exact Hhi |].
    symmetry. apply Z.eqb_neq. lia.
Qed.

(** [main]: [Placement p1("CSE", 120, 98);] *)
Lemma placement_percent_in_range_witness :
  Accuracy.close_to
    (Solutions1.Problem5.percent (Solutions1.Problem5.mkPlacement "CSE" 120 98))
    (100 * 98) 120 = true /\
  Order.lt
    (Solutions1.Problem5.percent (Solutions1.Problem5.mkPlacement "CSE" 120 98))
    (Float.float_of_int 100) = true.
Proof.
  destruct (placement_percent_in_range
              (Solutions1.Problem5.mkPlacement "CSE" 120 98))
    as (Hclose & _ & _ & Hlt); [simpl; lia | simpl; lia |].
  split; [exact Hclose | apply Hlt; simpl; lia].
Defined.

(** ** The floating-point literals *)

Example literals_are_correctly_rounded :
  Float.lit_3_0 = Float.double_of_int 3 /\
  Float.lit_6_0 = Float.double_of_int 6 /\
  Float.lit_100_0 = Float.double_of_int 100 /\
  Float.lit_0_9
  = Float.double_div (Float.double_of_int 9) (Float.double_of_int 10).
Proof. vm_compute. repeat split. Qed.
